(** * Port utilities of the node/network module: a shallow embedding

    The module [src/node/network/index.ts] exports five asynchronous
    operations ([isPortInUse], [isPortAvailable], [findAvailablePort],
    [checkMultiplePorts], [waitForPort]) built on one leaf primitive, the
    third-party TCP probe [isPortReachable].

    Effects are modelled by explicit state passing.  The state holds the
    wall clock read by [Date.now()], the number of probes issued so far
    and the trace of observable effects (probes, console warnings, timer
    sleeps).  The runtime environment and the behaviour of the network are
    parameters of the model.  A computation ends in one of three ways: it
    returns a value, it throws, or the model ran out of loop fuel.

    Numbers are modelled as mathematical integers ([Z]): ports, counters
    and millisecond durations.  On this domain [Number.isInteger] is
    constantly true; the guard is kept so that [validatePort] reads like
    its source. *)

From Stdlib Require Import ZArith List String Bool Lia.
From Stdlib Require Import DecimalString.
Import ListNotations.
Local Open Scope string_scope.
Local Open Scope list_scope.
Local Open Scope Z_scope.

(** ** Data model *)

(** Modelled from the spec: the runtime contexts told apart by the
    environment utilities of [universal/utils], which are not among the
    sources; their error names the required and the actual context. *)
Inductive Environment : Type :=
| NodeEnv
| BrowserEnv
| WebWorkerEnv
| UnknownEnv.

Definition Environment_eqb (a b : Environment) : bool :=
  match a, b with
  | NodeEnv, NodeEnv | BrowserEnv, BrowserEnv
  | WebWorkerEnv, WebWorkerEnv | UnknownEnv, UnknownEnv => true
  | _, _ => false
  end.

(** The second argument of [waitForPort]: ['available' | 'in-use']. *)
Inductive TargetState : Type :=
| Available
| InUse.

Definition TargetState_eqb (a b : TargetState) : bool :=
  match a, b with
  | Available, Available | InUse, InUse => true
  | _, _ => false
  end.

(** Error messages.  Each constructor is one template string of the
    source together with the values interpolated into it. *)
Inductive Message : Type :=
| MsgText (s : string)
| MsgUnknown
| MsgEnvironment (required current : Environment)
| MsgInvalidPort (port : Z)
| MsgCheckFailed (port : Z) (host : string) (cause : Message)
| MsgStartAfterEnd (startPort endPort : Z)
| MsgNoAvailablePort (startPort endPort attempts : Z)
| MsgTimeout (port : Z) (targetState : TargetState) (overallTimeout : Z).

(** Thrown values: the module's own [PortError] (message, port?, host?),
    the [EnvironmentError] of the environment utilities, an [Error] raised
    inside the probe library, or a thrown value that is not an [Error]. *)
Inductive Error : Type :=
| PortError (message : Message) (port : option Z) (host : option string)
| EnvironmentError (requiredEnvironment currentEnvironment : Environment)
| ForeignError (message : string)
| ForeignValue.

(** [error instanceof Error ? error.message : 'Unknown error'] *)
Definition message_of (error : Error) : Message :=
  match error with
  | PortError m _ _ => m
  | EnvironmentError r c => MsgEnvironment r c
  | ForeignError s => MsgText s
  | ForeignValue => MsgUnknown
  end.

Definition show_number (z : Z) : string := NilZero.string_of_int (Z.to_int z).

Definition show_state (t : TargetState) : string :=
  match t with Available => "available" | InUse => "in-use" end.

Definition show_environment (e : Environment) : string :=
  match e with
  | NodeEnv => "node"
  | BrowserEnv => "browser"
  | WebWorkerEnv => "webworker"
  | UnknownEnv => "unknown"
  end.

(** The text of a message, as the template strings build it.  The wording
    of the environment message belongs to [universal/utils] and is only
    indicative here. *)
Fixpoint render (m : Message) : string :=
  (match m with
  | MsgText s => s
  | MsgUnknown => "Unknown error"
  | MsgEnvironment r c =>
      "This feature requires " ++ show_environment r
        ++ " environment, current: " ++ show_environment c
  | MsgInvalidPort p =>
      "Invalid port number: " ++ show_number p
        ++ ". Must be an integer between 1 and 65535."
  | MsgCheckFailed p h cause =>
      "Failed to check port " ++ show_number p ++ " on " ++ h ++ ": "
        ++ render cause
  | MsgStartAfterEnd s e =>
      "Start port (" ++ show_number s
        ++ ") cannot be greater than end port (" ++ show_number e ++ ")"
  | MsgNoAvailablePort s e n =>
      "No available port found in range " ++ show_number s ++ "-"
        ++ show_number e ++ " after " ++ show_number n ++ " attempts"
  | MsgTimeout p t ms =>
      "Timeout waiting for port " ++ show_number p ++ " to become "
        ++ show_state t ++ " after " ++ show_number ms ++ "ms"
  end)%string.

(** Observable effects, oldest first in the trace. *)
Inductive Event : Type :=
| Probe (port : Z) (host : string) (timeout : Z)
| Warn (port : Z) (message : Message)
| Sleep (ms : Z).

(** What one call of the probe library does: it resolves to a boolean
    (reachable or not) or rejects. *)
Inductive ProbeReply : Type :=
| Resolves (reachable : bool)
| Rejects (error : Error).

Record State : Type := mkState {
  now : Z;
  probes : nat;
  trace : list Event
}.

Inductive Outcome (A : Type) : Type :=
| Returns (a : A)
| Throws (e : Error)
| OutOfFuel.

Arguments Returns {A} a.
Arguments Throws {A} e.
Arguments OutOfFuel {A}.

(** ** The effect monad *)

Definition M (A : Type) : Type := State -> Outcome A * State.

Definition ret {A} (a : A) : M A := fun s => (Returns a, s).

Definition throw {A} (e : Error) : M A := fun s => (Throws e, s).

Definition diverge {A} : M A := fun s => (OutOfFuel, s).

Definition bind {A B} (m : M A) (k : A -> M B) : M B :=
  fun s =>
    match m s with
    | (Returns a, s') => k a s'
    | (Throws e, s') => (Throws e, s')
    | (OutOfFuel, s') => (OutOfFuel, s')
    end.

(** [try { m } catch (error) { handler error }] *)
Definition try_catch {A} (m : M A) (handler : Error -> M A) : M A :=
  fun s =>
    match m s with
    | (Throws e, s') => handler e s'
    | r => r
    end.

Declare Scope monad_scope.
Delimit Scope monad_scope with monad.
Notation "x <- m ;; k" := (bind m (fun x => k))
  (at level 61, m at next level, right associativity) : monad_scope.
Notation "m ;;; k" := (bind m (fun _ => k))
  (at level 61, right associativity) : monad_scope.
Local Open Scope monad_scope.

(** Control flow of one [while] iteration: go round again, leave the
    enclosing function with [return], or leave the loop because its
    condition is false. *)
Inductive Flow (V R : Type) : Type :=
| Next (v : V)
| Return (r : R)
| Exit (v : V).

Arguments Next {V R} v.
Arguments Return {V R} r.
Arguments Exit {V R} v.

(** [while]: iterate [iter] on the loop variables.  The result is [inr r]
    for an early [return r], [inl v] when the condition fails with the
    variables at [v]. *)
Fixpoint while {V R} (fuel : nat) (iter : V -> M (Flow V R)) (v : V)
  : M (V + R) :=
  match fuel with
  | O => diverge
  | S fuel' =>
      x <- iter v ;;
      match x with
      | Next v' => while fuel' iter v'
      | Return r => ret (inr r)
      | Exit v' => ret (inl v')
      end
  end.

(** ** Options *)

Record PortCheckOptions : Type := mkPortCheckOptions {
  host : option string;
  timeout : option Z
}.

Record FindPortOptions : Type := mkFindPortOptions {
  find_host : option string;
  find_timeout : option Z;
  startPort : option Z;
  endPort : option Z;
  maxTries : option Z
}.

Record WaitOptions : Type := mkWaitOptions {
  wait_host : option string;
  wait_timeout : option Z;
  pollInterval : option Z;
  overallTimeout : option Z
}.

(** Destructuring default: [{ x = d } = options]. *)
Definition default {A} (d : A) (o : option A) : A :=
  match o with Some a => a | None => d end.

(** The empty options object [{}]. *)
Definition no_options : PortCheckOptions := mkPortCheckOptions None None.
Definition no_find_options : FindPortOptions :=
  mkFindPortOptions None None None None None.
Definition no_wait_options : WaitOptions := mkWaitOptions None None None None.

(** ** The JavaScript [Map] returned by [checkMultiplePorts]

    Entries are kept in insertion order; setting an existing key replaces
    its value in place. *)
Definition PortMap : Type := list (Z * bool).

Fixpoint Map_set (m : PortMap) (key : Z) (value : bool) : PortMap :=
  match m with
  | [] => [(key, value)]
  | (k, v) :: rest =>
      if k =? key then (k, value) :: rest else (k, v) :: Map_set rest key value
  end.

Fixpoint Map_get (m : PortMap) (key : Z) : option bool :=
  match m with
  | [] => None
  | (k, v) :: rest => if k =? key then Some v else Map_get rest key
  end.

Definition Map_keys (m : PortMap) : list Z := map fst m.

(** The public surface of the module: one constructor per exported
    operation, with its arguments. *)
Inductive Call : Type :=
| CallIsPortInUse (port : Z) (options : PortCheckOptions)
| CallIsPortAvailable (port : Z) (options : PortCheckOptions)
| CallFindAvailablePort (options : FindPortOptions)
| CallCheckMultiplePorts (ports : list Z) (options : PortCheckOptions)
| CallWaitForPort (fuel : nat) (port : Z) (targetState : TargetState)
                  (options : WaitOptions).

(** What the promise of an operation resolves to. *)
Inductive Value : Type :=
| VBool (b : bool)
| VPort (port : Z)
| VMap (m : PortMap)
| VUnit.

Section Network.

(** The runtime the module is loaded in. *)
Variable runtime : Environment.

(** The network: the reply to the [i]-th probe issued since the state
    was created, and the time the probe takes to settle. *)
Variable net : nat -> Z -> string -> Z -> ProbeReply * Z.

(** *** Primitives outside the module *)

(** [Date.now()] *)
Definition Date_now : M Z := fun s => (Returns (now s), s).

(** [console.warn(`Error checking port ${port}: ${message}`)] *)
Definition console_warn (port : Z) (message : Message) : M unit :=
  fun s => (Returns tt,
            mkState (now s) (probes s) (trace s ++ [Warn port message])).

(** [await new Promise(resolve => setTimeout(resolve, ms))].  The timer of
    the model fires after exactly [ms] milliseconds.  That is the delay a
    JavaScript timer is asked for when 1 <= ms <= 2^31 - 1; outside this
    range Node.js replaces the delay by 1 ms, so a statement that needs
    a sleep to last at least [ms] keeps [ms] within the range. *)
Definition sleep (ms : Z) : M unit :=
  fun s => (Returns tt,
            mkState (now s + Z.max 0 ms) (probes s) (trace s ++ [Sleep ms])).

(** [await isPortReachable(port, { host, timeout })] *)
Definition isPortReachable (port : Z) (host : string) (timeout : Z) : M bool :=
  fun s =>
    let '(reply, took) := net (probes s) port host timeout in
    let s' := mkState (now s + took) (S (probes s))
                      (trace s ++ [Probe port host timeout]) in
    match reply with
    | Resolves reachable => (Returns reachable, s')
    | Rejects e => (Throws e, s')
    end.

(** Modelled from the spec: [assertNodeEnvironment] of
    [universal/utils], which is not among the sources.  It raises a
    distinct environment error naming the required and the actual
    runtime context, and does nothing in a Node.js runtime. *)
Definition assertNodeEnvironment : M unit :=
  if Environment_eqb runtime NodeEnv then ret tt
  else throw (EnvironmentError NodeEnv runtime).

(** *** The module *)

Definition Number_isInteger (n : Z) : bool := true.

Definition validatePort (port : Z) : M unit :=
  if negb (Number_isInteger port) || (port <? 1) || (port >? 65535)
  then throw (PortError (MsgInvalidPort port) (Some port) None)
  else ret tt.

Definition isPortInUse (port : Z) (options : PortCheckOptions) : M bool :=
  assertNodeEnvironment ;;;
  validatePort port ;;;
  let host := default "localhost"%string (host options) in
  let timeout := default 5000 (timeout options) in
  try_catch
    (isPortReachable port host timeout)
    (fun error =>
       throw (PortError (MsgCheckFailed port host (message_of error))
                        (Some port) (Some host))).

Definition isPortAvailable (port : Z) (options : PortCheckOptions) : M bool :=
  inUse <- isPortInUse port options ;;
  ret (negb inUse).

(** Loop variables of the scan in [findAvailablePort]. *)
Record ScanVars : Type := mkScanVars {
  currentPort : Z;
  attempts : Z
}.

(** One turn of
    [while (currentPort <= endPort && attempts < maxTries) { ... }]. *)
Definition scan_iter (endPort maxTries : Z) (host : string) (timeout : Z)
           (v : ScanVars) : M (Flow ScanVars Z) :=
  if (currentPort v <=? endPort) && (attempts v <? maxTries) then
    found <- try_catch
               (available <- isPortAvailable (currentPort v)
                               (mkPortCheckOptions (Some host) (Some timeout)) ;;
                ret available)
               (fun error =>
                  console_warn (currentPort v) (message_of error) ;;;
                  ret false) ;;
    if (found : bool) then ret (Return (currentPort v))
    else ret (Next (mkScanVars (currentPort v + 1) (attempts v + 1)))
  else ret (Exit v).

(** The scan runs its body at most once per port of the range, so this
    fuel is never used up (theorem [findAvailablePort_total]). *)
Definition scan_fuel (startPort endPort : Z) : nat :=
  Z.to_nat (endPort - startPort) + 2.

Definition findAvailablePort (options : FindPortOptions) : M Z :=
  let startPort := default 3000 (startPort options) in
  let endPort := default 65535 (endPort options) in
  let maxTries := default 100 (maxTries options) in
  let host := default "localhost"%string (find_host options) in
  let timeout := default 5000 (find_timeout options) in
  validatePort startPort ;;;
  validatePort endPort ;;;
  if startPort >? endPort then
    throw (PortError (MsgStartAfterEnd startPort endPort) None None)
  else
    left <- while (scan_fuel startPort endPort)
                  (scan_iter endPort maxTries host timeout)
                  (mkScanVars startPort 0) ;;
    match left with
    | inr port => ret port
    | inl v =>
        throw (PortError (MsgNoAvailablePort startPort endPort (attempts v))
                         None (Some host))
    end.

(** [l.forEach(f)] for a callback that may throw. *)
Fixpoint forEach {A} (f : A -> M unit) (l : list A) : M unit :=
  match l with
  | [] => ret tt
  | a :: rest => f a ;;; forEach f rest
  end.

(** A task of a concurrent fan-out: it starts at time [t0] whatever the
    tasks launched before it are doing; the clock keeps the latest
    settling time seen so far. *)
Definition concurrently {A} (t0 : Z) (task : M A) : M A :=
  fun s =>
    let '(r, s1) := task (mkState t0 (probes s) (trace s)) in
    (r, mkState (Z.max (now s) (now s1)) (probes s1) (trace s1)).

Fixpoint all_from {A} (t0 : Z) (tasks : list (M A)) : M (list A) :=
  match tasks with
  | [] => ret []
  | task :: rest =>
      a <- concurrently t0 task ;;
      others <- all_from t0 rest ;;
      ret (a :: others)
  end.

(** [await Promise.all(tasks)]: the tasks are launched in list order (the
    probes take their place in the network's sequence in that order),
    the results come back in list order, and the wait ends when the
    slowest task has settled.  The trace lists the events task by task;
    in a real run every probe is launched before the first warning is
    written, so only the order among the probes, the contents of the
    warnings and the results are meant by it. *)
Definition Promise_all {A} (tasks : list (M A)) : M (list A) :=
  t0 <- Date_now ;;
  all_from t0 tasks.

(** The callback mapped over the ports by [checkMultiplePorts]. *)
Definition check_port (options : PortCheckOptions) (port : Z)
  : M (Z * bool) :=
  try_catch
    (available <- isPortAvailable port options ;;
     ret (port, available))
    (fun error =>
       console_warn port (message_of error) ;;;
       ret (port, false)).

Definition checkMultiplePorts (ports : list Z) (options : PortCheckOptions)
  : M PortMap :=
  let results : PortMap := [] in
  forEach validatePort ports ;;;
  let checks := map (check_port options) ports in
  checkResults <- Promise_all checks ;;
  ret (fold_left
         (fun results '(port, available) => Map_set results port available)
         checkResults results).

(** One turn of [while (Date.now() - startTime < overallTimeout) { ... }]. *)
Definition wait_iter (port : Z) (targetState : TargetState)
           (host : string) (timeout pollInterval overallTimeout : Z)
           (startTime : Z) (_ : unit) : M (Flow unit unit) :=
  t <- Date_now ;;
  if t - startTime <? overallTimeout then
    reached <- try_catch
                 (inUse <- isPortInUse port
                             (mkPortCheckOptions (Some host) (Some timeout)) ;;
                  let currentState := if (inUse : bool) then InUse else Available in
                  ret (TargetState_eqb currentState targetState))
                 (fun error =>
                    console_warn port (message_of error) ;;;
                    ret false) ;;
    if (reached : bool) then ret (Return tt)
    else sleep pollInterval ;;; ret (Next tt)
  else ret (Exit tt).

(** The watcher's loop is bounded by the clock only, so the model takes
    the number of turns it may run as [fuel]. *)
Definition waitForPort (fuel : nat) (port : Z) (targetState : TargetState)
           (options : WaitOptions) : M unit :=
  validatePort port ;;;
  let host := default "localhost"%string (wait_host options) in
  let timeout := default 5000 (wait_timeout options) in
  let pollInterval := default 1000 (pollInterval options) in
  let overallTimeout := default 30000 (overallTimeout options) in
  startTime <- Date_now ;;
  left <- while fuel
                (wait_iter port targetState host timeout pollInterval
                           overallTimeout startTime)
                tt ;;
  match left with
  | inr _ => ret tt
  | inl _ =>
      throw (PortError (MsgTimeout port targetState overallTimeout)
                       (Some port) (Some host))
  end.

Definition invoke (c : Call) : M Value :=
  match c with
  | CallIsPortInUse port options =>
      b <- isPortInUse port options ;; ret (VBool b)
  | CallIsPortAvailable port options =>
      b <- isPortAvailable port options ;; ret (VBool b)
  | CallFindAvailablePort options =>
      p <- findAvailablePort options ;; ret (VPort p)
  | CallCheckMultiplePorts ports options =>
      m <- checkMultiplePorts ports options ;; ret (VMap m)
  | CallWaitForPort fuel port targetState options =>
      waitForPort fuel port targetState options ;;; ret VUnit
  end.

End Network.

(** ** Runs on concrete networks *)

Definition fresh : State := mkState 0 0 [].

(** Every connection is accepted after 2 ms: every port is in use. *)
Definition all_busy : nat -> Z -> string -> Z -> ProbeReply * Z :=
  fun _ _ _ _ => (Resolves true, 2).

(** Nothing listens anywhere: every port is free. *)
Definition all_free : nat -> Z -> string -> Z -> ProbeReply * Z :=
  fun _ _ _ _ => (Resolves false, 2).

(** Ports below [p] are in use, port [p] makes the probe fail, the ports
    above it are free. *)
Definition free_above (p : Z) : nat -> Z -> string -> Z -> ProbeReply * Z :=
  fun _ port _ _ =>
    if port <? p then (Resolves true, 1)
    else if port =? p then (Rejects (ForeignError "EHOSTUNREACH"), 1)
    else (Resolves false, 1).

(** One probe that fails, then the port is busy for good. *)
Definition flaky_then_busy : nat -> Z -> string -> Z -> ProbeReply * Z :=
  fun i _ _ _ =>
    match i with
    | O => (Rejects (ForeignError "ECONNRESET"), 3)
    | _ => (Resolves true, 2)
    end.

(** ** Vocabulary of the statements *)

Definition valid_port (p : Z) : Prop := 1 <= p <= 65535.

(** The ports handed to the probe library, in order. *)
Fixpoint probed (evs : list Event) : list Z :=
  match evs with
  | [] => []
  | Probe p _ _ :: rest => p :: probed rest
  | _ :: rest => probed rest
  end.

(** [start; start + 1; ...], [n] ports. *)
Fixpoint ports_from (start : Z) (n : nat) : list Z :=
  match n with
  | O => []
  | S n' => start :: ports_from (start + 1) n'
  end.

(** The state a probe leaves behind. *)
Definition after_probe (net : nat -> Z -> string -> Z -> ProbeReply * Z)
           (s : State) (port : Z) (host : string) (timeout : Z) : State :=
  mkState (now s + snd (net (probes s) port host timeout))
          (S (probes s))
          (trace s ++ [Probe port host timeout]).

(** A port is observed free when the runtime can probe at all and the
    probe resolves to "not reachable". *)
Definition observed_free (runtime : Environment)
           (net : nat -> Z -> string -> Z -> ProbeReply * Z)
           (i : nat) (port : Z) (host : string) (timeout : Z) : bool :=
  Environment_eqb runtime NodeEnv &&
  match fst (net i port host timeout) with
  | Resolves reachable => negb reachable
  | Rejects _ => false
  end.

(** The options of a scan after the defaults are filled in. *)
Definition start_of (o : FindPortOptions) : Z := default 3000 (startPort o).
Definition end_of (o : FindPortOptions) : Z := default 65535 (endPort o).
Definition tries_of (o : FindPortOptions) : Z := default 100 (maxTries o).
Definition host_of (o : FindPortOptions) : string :=
  default "localhost" (find_host o).
Definition timeout_of (o : FindPortOptions) : Z :=
  default 5000 (find_timeout o).

(** The number of attempts a scan may make: the size of the range or
    [maxTries], whichever is smaller. *)
Definition scan_bound (o : FindPortOptions) : nat :=
  Z.to_nat (Z.min (end_of o - start_of o + 1) (tries_of o)).

(** The error of a scan that found nothing after [n] attempts. *)
Definition exhausted (o : FindPortOptions) (n : Z) : Error :=
  PortError (MsgNoAvailablePort (start_of o) (end_of o) n) None
            (Some (host_of o)).

(** The loop heads a [while] passes through: [reaches iter v s v' s'] when
    the loop started with variables [v] in state [s] is, some turns later,
    about to test its condition with variables [v'] in state [s']. *)
Inductive reaches {V R : Type} (iter : V -> M (Flow V R))
  : V -> State -> V -> State -> Prop :=
| reaches_here : forall v s, reaches iter v s v s
| reaches_next : forall v s v1 s1 v' s',
    iter v s = (Returns (Next v1), s1) ->
    reaches iter v1 s1 v' s' ->
    reaches iter v s v' s'.


(** What the batch prober records for the ports of a batch whose first
    probe is the [i]-th of the network: each port with its observation. *)
Fixpoint observations (runtime : Environment)
         (net : nat -> Z -> string -> Z -> ProbeReply * Z)
         (i : nat) (ports : list Z) (h : string) (t : Z) : list (Z * bool) :=
  match ports with
  | [] => []
  | p :: rest =>
      (p, observed_free runtime net i p h t)
        :: observations runtime net (S i) rest h t
  end.

(** [checkResults.forEach(({ port, available }) => results.set(port, available))]
    on an empty map. *)
Definition build_map (checkResults : list (Z * bool)) : PortMap :=
  fold_left (fun results '(port, available) => Map_set results port available)
            checkResults [].

(** The options of a watcher after the defaults are filled in. *)
Definition wait_host_of (o : WaitOptions) : string :=
  default "localhost" (wait_host o).
Definition wait_timeout_of (o : WaitOptions) : Z :=
  default 5000 (wait_timeout o).
Definition poll_of (o : WaitOptions) : Z := default 1000 (pollInterval o).
Definition deadline_of (o : WaitOptions) : Z := default 30000 (overallTimeout o).

(** [inUse ? 'in-use' : 'available'] *)
Definition state_of (inUse : bool) : TargetState :=
  if inUse then InUse else Available.

(** The [i]-th probe of the network shows the port in the target state. *)
Definition reached (runtime : Environment)
           (net : nat -> Z -> string -> Z -> ProbeReply * Z)
           (i : nat) (port : Z) (h : string) (t : Z) (target : TargetState)
  : bool :=
  Environment_eqb runtime NodeEnv &&
  match fst (net i port h t) with
  | Resolves inUse => TargetState_eqb (state_of inUse) target
  | Rejects _ => false
  end.

(** The error of a watcher that gave up. *)
Definition timed_out (port : Z) (target : TargetState) (o : WaitOptions) : Error :=
  PortError (MsgTimeout port target (deadline_of o)) (Some port)
            (Some (wait_host_of o)).

(** Calls with a malformed port: out of range, or a range that starts
    after its end. *)
Definition malformed (c : Call) : Prop :=
  match c with
  | CallIsPortInUse port _ => ~ valid_port port
  | CallIsPortAvailable port _ => ~ valid_port port
  | CallFindAvailablePort o =>
      ~ valid_port (start_of o) \/ ~ valid_port (end_of o)
      \/ start_of o > end_of o
  | CallCheckMultiplePorts ports _ => Exists (fun p => ~ valid_port p) ports
  | CallWaitForPort _ port _ _ => ~ valid_port port
  end.

(** The two operations that are a single probe: they assert the runtime
    before they look at the port. *)
Definition single_probe (c : Call) : bool :=
  match c with
  | CallIsPortInUse _ _ | CallIsPortAvailable _ _ => true
  | _ => false
  end.

(** Errors raised by the input checks. *)
Definition is_validation_error (e : Error) : Prop :=
  match e with
  | PortError (MsgInvalidPort _) _ _ => True
  | PortError (MsgStartAfterEnd _ _) _ _ => True
  | _ => False
  end.

(** The ports named by the console warnings, in order. *)
Fixpoint warned (evs : list Event) : list Z :=
  match evs with
  | [] => []
  | Warn p _ :: rest => p :: warned rest
  | _ :: rest => warned rest
  end.

(** The [i]-th probe of the network is rejected. *)
Definition rejected (net : nat -> Z -> string -> Z -> ProbeReply * Z)
           (i : nat) (port : Z) (h : string) (t : Z) : bool :=
  match fst (net i port h t) with
  | Rejects _ => true
  | Resolves _ => false
  end.

(** Among [n] scan attempts on the ports from [start] on, the first of
    them being the [i]-th probe of the network, the ports whose probe is
    rejected. *)
Fixpoint rejected_from (net : nat -> Z -> string -> Z -> ProbeReply * Z)
         (i : nat) (start : Z) (n : nat) (h : string) (t : Z) : list Z :=
  match n with
  | O => []
  | S n' =>
      (if rejected net i start h t then [start] else [])
        ++ rejected_from net (S i) (start + 1) n' h t
  end.

(** The distinct elements of a list, in the order of their first
    occurrence. *)
Definition first_occurrences (l : list Z) : list Z :=
  rev (nodup Z.eq_dec (rev l)).

(** ** The jwt module

    The module wraps the [jsonwebtoken] library and turns its callbacks
    and exceptions into result objects tagged ['success'] or ['error'].
    The library is a parameter of the model.  Where the code tests the
    runtime type of an input ([!token], [typeof token !== 'string']) the
    input is a JavaScript value; what the library hands back follows its
    type declarations. *)

Local Set Warnings "-register-all".

Inductive JsValue : Type :=
| JsUndefined
| JsNull
| JsBoolean (b : bool)
| JsNumber (n : Z)
| JsString (s : string)
| JsObject (fields : list (string * JsValue)).

(** [!!v] *)
Definition truthy (v : JsValue) : bool :=
  match v with
  | JsUndefined | JsNull => false
  | JsBoolean b => b
  | JsNumber n => negb (n =? 0)
  | JsString s => negb (String.eqb s "")
  | JsObject _ => true
  end.

(** [typeof v === 'string'] *)
Definition is_string (v : JsValue) : bool :=
  match v with JsString _ => true | _ => false end.

(** [typeof v === 'object'] *)
Definition is_object (v : JsValue) : bool :=
  match v with JsNull | JsObject _ => true | _ => false end.

(** [!!o.key] for a property that may be absent. *)
Definition truthy_property (v : option JsValue) : bool :=
  match v with Some x => truthy x | None => false end.

Inductive JwtErrorCode : Type :=
| invalid_token
| invalid_secret
| invalid_payload
| verification_failed
| signing_failed
| token_expired
| decode_failed
| environment_error.

Definition show_code (c : JwtErrorCode) : string :=
  match c with
  | invalid_token => "invalid_token"
  | invalid_secret => "invalid_secret"
  | invalid_payload => "invalid_payload"
  | verification_failed => "verification_failed"
  | signing_failed => "signing_failed"
  | token_expired => "token_expired"
  | decode_failed => "decode_failed"
  | environment_error => "environment_error"
  end.

Record JwtError : Type := mkJwtError {
  code : JwtErrorCode;
  message : string;
  originalError : option Error
}.

(** [JwtResult<T>]: the ['success'] variant with its data or the ['error']
    variant with its error. *)
Inductive JwtResult (T : Type) : Type :=
| JwtSuccessResult (data : T)
| JwtErrorResult (error : JwtError).

Arguments JwtSuccessResult {T} data.
Arguments JwtErrorResult {T} error.

(** [JwtPayload]: the registered expiration claim, a number of seconds
    when present, and the other claims. *)
Record JwtPayload : Type := mkJwtPayload {
  exp : option Z;
  claims : list (string * JsValue)
}.

(** What [jsonwebtoken] hands back for a token: nothing ([undefined] or
    [null]), a string payload, an object payload, or with [complete] the
    whole token. *)
Inductive Decoded : Type :=
| DecodedNothing
| DecodedString (s : string)
| DecodedPayload (p : JwtPayload)
| DecodedJwt (header : list (string * JsValue)) (payload : JwtPayload + string)
             (signature : string).

(** [!!decoded] *)
Definition decoded_truthy (d : Decoded) : bool :=
  match d with
  | DecodedNothing => false
  | DecodedString s => negb (String.eqb s "")
  | DecodedPayload _ | DecodedJwt _ _ _ => true
  end.

(** [typeof decoded === 'string'] *)
Definition decoded_is_string (d : Decoded) : bool :=
  match d with DecodedString _ => true | _ => false end.

(** [decoded.exp] of a truthy value: only an object payload has one. *)
Definition decoded_exp (d : Decoded) : option Z :=
  match d with
  | DecodedPayload p => exp p
  | _ => None
  end.

(** [!exp] for an optional number. *)
Definition number_truthy (n : option Z) : bool :=
  match n with Some x => negb (x =? 0) | None => false end.

(** The arguments a callback of the library is called with: an error with
    its message, or a value. *)
Inductive Callback (A : Type) : Type :=
| CallbackError (err_message : string)
| CallbackValue (value : A).

Arguments CallbackError {A} err_message.
Arguments CallbackValue {A} value.

(** A synchronous call of the library: it returns or throws. *)
Inductive Attempt (A : Type) : Type :=
| Returned (value : A)
| Thrown (error : Error).

Arguments Returned {A} value.
Arguments Thrown {A} error.

(** [error instanceof Error ? error : undefined] *)
Definition as_Error (error : Error) : option Error :=
  match error with
  | ForeignValue => None
  | _ => Some error
  end.

Record JwtVerifyInput : Type := mkJwtVerifyInput {
  verify_token : JsValue;
  verify_secret : JsValue;
  verify_options : option (list (string * JsValue))
}.

(** [JwtSignOptions]: the options of the library plus [defaultExpiresIn]. *)
Record JwtSignOptions : Type := mkJwtSignOptions {
  expiresIn : option JsValue;
  defaultExpiresIn : option JsValue;
  other_options : list (string * JsValue)
}.

(** [SignOptions], as the library receives them. *)
Record SignOptions : Type := mkSignOptions {
  sign_expiresIn : option JsValue;
  sign_other_options : list (string * JsValue)
}.

Record JwtSignInput : Type := mkJwtSignInput {
  sign_payload : JsValue;
  sign_secret : JsValue;
  sign_options : option JwtSignOptions
}.

Record DecodeOptions : Type := mkDecodeOptions {
  complete : option bool
}.

Record JwtDecodeInput : Type := mkJwtDecodeInput {
  decode_token : JsValue;
  decode_options : option DecodeOptions
}.

Record JwtExpirationInput : Type := mkJwtExpirationInput {
  token : JsValue
}.

(** The error both guarded operations resolve to outside Node.js. *)
Definition environment_failure (error : Error) : JwtError :=
  mkJwtError environment_error
             "JWT operations are only supported in Node.js environment"
             (Some error).

(** [const { defaultExpiresIn, ...signOptions } = options;
     const finalOptions = { ...signOptions,
       ...(defaultExpiresIn && !signOptions.expiresIn
           && { expiresIn: defaultExpiresIn }) };] *)
Definition finalOptions (options : JwtSignOptions) : SignOptions :=
  let signOptions := mkSignOptions (expiresIn options) (other_options options) in
  if truthy_property (defaultExpiresIn options)
     && negb (truthy_property (sign_expiresIn signOptions))
  then mkSignOptions (defaultExpiresIn options) (sign_other_options signOptions)
  else signOptions.

Section Jwt.

Variable runtime : Environment.

(** The three entry points of the library used by the module. *)
Variable jsonwebtoken_verify :
  JsValue -> JsValue -> list (string * JsValue) -> Callback Decoded.
Variable jsonwebtoken_sign :
  JsValue -> JsValue -> SignOptions -> Callback (option string).
Variable jsonwebtoken_decode : JsValue -> DecodeOptions -> Attempt Decoded.

Definition jwtVerify (input : JwtVerifyInput) : M (JwtResult Decoded) :=
  let token := verify_token input in
  let secret := verify_secret input in
  let options := default [] (verify_options input) in
  refused <- try_catch
               (assertNodeEnvironment runtime ;;; ret None)
               (fun error =>
                  ret (Some (JwtErrorResult (environment_failure error)))) ;;
  match refused with
  | Some result => ret result
  | None =>
      if negb (truthy token) || negb (is_string token) then
        ret (JwtErrorResult
               (mkJwtError invalid_token
                  "Invalid token: Token must be a non-empty string" None))
      else if negb (truthy secret) then
        ret (JwtErrorResult
               (mkJwtError invalid_secret
                  "Invalid secret: Secret is required for token verification"
                  None))
      else
        match jsonwebtoken_verify token secret options with
        | CallbackError err_message =>
            ret (JwtErrorResult
                   (mkJwtError verification_failed
                      ("JWT verification failed: " ++ err_message)%string
                      (Some (ForeignError err_message))))
        | CallbackValue decoded =>
            if negb (decoded_truthy decoded) || decoded_is_string decoded then
              ret (JwtErrorResult
                     (mkJwtError invalid_payload
                        "Invalid payload: Expected object payload" None))
            else ret (JwtSuccessResult decoded)
        end
  end.

Definition jwtSign (input : JwtSignInput) : M (JwtResult string) :=
  let payload := sign_payload input in
  let secret := sign_secret input in
  let options := default (mkJwtSignOptions None None []) (sign_options input) in
  refused <- try_catch
               (assertNodeEnvironment runtime ;;; ret None)
               (fun error =>
                  ret (Some (JwtErrorResult (environment_failure error)))) ;;
  match refused with
  | Some result => ret result
  | None =>
      if negb (truthy payload) || negb (is_object payload) then
        ret (JwtErrorResult
               (mkJwtError invalid_payload
                  "Invalid payload: Payload must be an object" None))
      else if negb (truthy secret) then
        ret (JwtErrorResult
               (mkJwtError invalid_secret
                  "Invalid secret: Secret is required for token signing" None))
      else
        match jsonwebtoken_sign payload secret (finalOptions options) with
        | CallbackError err_message =>
            ret (JwtErrorResult
                   (mkJwtError signing_failed
                      ("JWT signing failed: " ++ err_message)%string
                      (Some (ForeignError err_message))))
        | CallbackValue signed =>
            match signed with
            | Some t =>
                if String.eqb t "" then
                  ret (JwtErrorResult
                         (mkJwtError signing_failed
                            "JWT signing failed: No token generated" None))
                else ret (JwtSuccessResult t)
            | None =>
                ret (JwtErrorResult
                       (mkJwtError signing_failed
                          "JWT signing failed: No token generated" None))
            end
        end
  end.

Definition jwtDecode (input : JwtDecodeInput) : JwtResult Decoded :=
  let token := decode_token input in
  let options := default (mkDecodeOptions None) (decode_options input) in
  if negb (truthy token) || negb (is_string token) then
    JwtErrorResult
      (mkJwtError invalid_token
         "Invalid token: Token must be a non-empty string" None)
  else
    match jsonwebtoken_decode token options with
    | Returned decoded =>
        if negb (decoded_truthy decoded) then
          JwtErrorResult
            (mkJwtError decode_failed
               "Failed to decode token: Invalid token format" None)
        else JwtSuccessResult decoded
    | Thrown error =>
        JwtErrorResult
          (mkJwtError decode_failed
             ("Failed to decode token: " ++ render (message_of error))%string
             (as_Error error))
    end.

(** The error of the two expiration helpers for a token without [exp]. *)
Definition no_expiration : JwtError :=
  mkJwtError invalid_payload
             "Token does not contain expiration time (exp claim)" None.

(** [Math.floor(Date.now() / 1000)]; within the range of [Date] the
    division of the integer clock is exact enough for the floor to be the
    integer quotient. *)
Definition currentTime_now : M Z :=
  ms <- Date_now ;; ret (ms / 1000).

Definition jwtIsExpired (input : JwtExpirationInput) : M (JwtResult bool) :=
  match jwtDecode (mkJwtDecodeInput (token input) None) with
  | JwtErrorResult error => ret (JwtErrorResult error)
  | JwtSuccessResult data =>
      if negb (number_truthy (decoded_exp data)) then
        ret (JwtErrorResult no_expiration)
      else
        currentTime <- currentTime_now ;;
        ret (JwtSuccessResult (default 0 (decoded_exp data) <? currentTime))
  end.

Definition jwtTimeUntilExpiry (input : JwtExpirationInput) : M (JwtResult Z) :=
  match jwtDecode (mkJwtDecodeInput (token input) None) with
  | JwtErrorResult error => ret (JwtErrorResult error)
  | JwtSuccessResult data =>
      if negb (number_truthy (decoded_exp data)) then
        ret (JwtErrorResult no_expiration)
      else
        currentTime <- currentTime_now ;;
        let timeLeft := default 0 (decoded_exp data) - currentTime in
        ret (JwtSuccessResult (if timeLeft >? 0 then timeLeft else 0))
  end.

End Jwt.

Definition isJwtSuccess {T} (result : JwtResult T) : bool :=
  match result with JwtSuccessResult _ => true | JwtErrorResult _ => false end.

Definition isJwtError {T} (result : JwtResult T) : bool :=
  match result with JwtSuccessResult _ => false | JwtErrorResult _ => true end.

(** [throw new Error(`JWT ${code}: ${message}`)] for an error result. *)
Definition unwrapJwtResult {T} (result : JwtResult T) : M T :=
  match result with
  | JwtSuccessResult data => ret data
  | JwtErrorResult error =>
      throw (ForeignError
               ("JWT " ++ show_code (code error) ++ ": " ++ message error)%string)
  end.

(** ** The time utilities *)

Record TimeUnits : Type := mkTimeUnits {
  seconds : option Z;
  minutes : option Z;
  hours : option Z;
  days : option Z;
  months : option Z;
  years : option Z
}.

Definition no_time : TimeUnits := mkTimeUnits None None None None None None.

Definition SECONDS_PER_MINUTE : Z := 60.
Definition SECONDS_PER_HOUR : Z := 60 * 60.
Definition SECONDS_PER_DAY : Z := 60 * 60 * 24.
Definition SECONDS_PER_MONTH : Z := 60 * 60 * 24 * 30.
Definition SECONDS_PER_YEAR : Z := 60 * 60 * 24 * 365.

(** The units are integers here; the source accepts any number, and on
    fractional units its products and sums round.  What is proved below
    is about whole units only. *)
Definition convertToSeconds (options : TimeUnits) : Z :=
  let seconds := default 0 (seconds options) in
  let minutes := default 0 (minutes options) in
  let hours := default 0 (hours options) in
  let days := default 0 (days options) in
  let months := default 0 (months options) in
  let years := default 0 (years options) in
  seconds
  + (minutes * SECONDS_PER_MINUTE)
  + (hours * SECONDS_PER_HOUR)
  + (days * SECONDS_PER_DAY)
  + (months * SECONDS_PER_MONTH)
  + (years * SECONDS_PER_YEAR).

Definition getUnixTimestampMs : M Z := Date_now.

Definition getUnixTimestamp : M Z :=
  ms <- getUnixTimestampMs ;; ret (ms / 1000).

(** Inputs on which the arithmetic of [convertToSeconds] is exact in
    JavaScript numbers: with every unit within a hundred million, all
    products and sums stay below 2^53. *)
Definition small (n : option Z) : Prop := Z.abs (default 0 n) <= 100000000.

Definition small_units (o : TimeUnits) : Prop :=
  small (seconds o) /\ small (minutes o) /\ small (hours o)
  /\ small (days o) /\ small (months o) /\ small (years o).

(** Two sets of units added unit by unit. *)
Definition add_units (a b : TimeUnits) : TimeUnits :=
  let plus x y := Some (default 0 x + default 0 y) in
  mkTimeUnits (plus (seconds a) (seconds b)) (plus (minutes a) (minutes b))
              (plus (hours a) (hours b)) (plus (days a) (days b))
              (plus (months a) (months b)) (plus (years a) (years b)).

(** ** The string utilities *)

(** [a[2]], [undefined] past the end; [join] renders it as nothing. *)
Definition third_character (rendering : string) : string :=
  match String.get 2 rendering with
  | Some c => String c EmptyString
  | None => EmptyString
  end.

(** [Array.from({ length }, () => Math.random().toString(36)[2]).join("")]:
    the callback runs once per index, in order; [random i] is what
    [Math.random().toString(36)] evaluates to in its [i]-th run. *)
Definition random_characters (random : nat -> string) (length : nat) : string :=
  String.concat "" (map (fun i => third_character (random i)) (seq 0 length)).

Definition randomStringWithFixedLength (random : nat -> string) (length : Z)
  : M string :=
  if negb (Number_isInteger length) || (length <=? 0) then
    throw (ForeignError "Length must be a positive integer.")
  else if length >? 4294967295 then
    (* Array.from cannot create an array of that length *)
    throw (ForeignError "Invalid array length")
  else ret (random_characters random (Z.to_nat length)).

(** ** A library to run the jwt module on *)

Definition token_payload (name : string) : Attempt Decoded :=
  if String.eqb name "expired" then
    Returned (DecodedPayload (mkJwtPayload (Some 1000) []))
  else if String.eqb name "lasting" then
    Returned (DecodedPayload (mkJwtPayload (Some 2000) []))
  else if String.eqb name "epoch" then
    Returned (DecodedPayload (mkJwtPayload (Some 0) []))
  else if String.eqb name "undated" then
    Returned (DecodedPayload (mkJwtPayload None []))
  else if String.eqb name "text" then Returned (DecodedString "hello")
  else if String.eqb name "broken" then Thrown (ForeignError "Unexpected token")
  else Returned DecodedNothing.

(** A decoder that knows a handful of tokens by name. *)
Definition sample_decode (token : JsValue) (_ : DecodeOptions) : Attempt Decoded :=
  match token with
  | JsString name => token_payload name
  | _ => Returned DecodedNothing
  end.

(** A verifier that accepts what the decoder knows when the secret is
    ["s3cret"]. *)
Definition sample_verify (token secret : JsValue) (_ : list (string * JsValue))
  : Callback Decoded :=
  match secret with
  | JsString "s3cret" =>
      match sample_decode token (mkDecodeOptions None) with
      | Returned d => CallbackValue d
      | Thrown _ => CallbackError "jwt malformed"
      end
  | _ => CallbackError "invalid signature"
  end.

(** A signer whose token spells out the expiry it was asked for. *)
Definition sample_sign (_ _ : JsValue) (options : SignOptions)
  : Callback (option string) :=
  match sign_expiresIn options with
  | Some (JsString e) => CallbackValue (Some ("token.exp=" ++ e)%string)
  | Some (JsNumber _) => CallbackValue (Some "token.exp=number")
  | Some _ => CallbackError "bad expiresIn"
  | None => CallbackValue (Some "token.noexp")
  end.

(** The expiry the library is asked for: an [expiresIn] that is set and
    truthy, else a [defaultExpiresIn] that is set and truthy, else
    whatever [expiresIn] was. *)
Definition effective_expiresIn (options : JwtSignOptions) : option JsValue :=
  if truthy_property (expiresIn options) then expiresIn options
  else if truthy_property (defaultExpiresIn options) then defaultExpiresIn options
  else expiresIn options.

(** Renderings of random numbers: [0.k7x...] everywhere, except that the
    run of index 1 draws the number 0, which renders as ["0"]. *)
Definition sample_random (i : nat) : string :=
  match i with
  | 1%nat => "0"
  | _ => "0.k7x2m"
  end.

(** ** Basic facts *)

Ltac run :=
  unfold bind, ret, throw, try_catch, diverge, Date_now, console_warn, sleep;
  simpl.

Lemma Environment_eqb_eq (a b : Environment) :
  Environment_eqb a b = true <-> a = b.
Proof. destruct a, b; simpl; split; congruence. Qed.

Lemma Environment_eqb_neq (a b : Environment) :
  Environment_eqb a b = false <-> a <> b.
Proof. destruct a, b; simpl; split; congruence. Qed.

Lemma validatePort_valid (p : Z) (s : State) :
  valid_port p -> validatePort p s = (Returns tt, s).
Proof.
  unfold valid_port, validatePort, Number_isInteger. intros H. simpl.
  destruct (Z.ltb_spec p 1); [lia|].
  destruct (Z.gtb_spec p 65535); [lia|]. reflexivity.
Qed.

Lemma validatePort_invalid (p : Z) (s : State) :
  ~ valid_port p ->
  validatePort p s = (Throws (PortError (MsgInvalidPort p) (Some p) None), s).
Proof.
  unfold valid_port, validatePort, Number_isInteger. intros H. simpl.
  destruct (Z.ltb_spec p 1); [reflexivity|].
  destruct (Z.gtb_spec p 65535); [reflexivity|]. lia.
Qed.

Lemma valid_port_dec (p : Z) : {valid_port p} + {~ valid_port p}.
Proof.
  unfold valid_port.
  destruct (Z_le_dec 1 p); [destruct (Z_le_dec p 65535)|]; [left|right|right]; lia.
Qed.

Section Probing.

Variable runtime : Environment.
Variable net : nat -> Z -> string -> Z -> ProbeReply * Z.

Lemma assertNodeEnvironment_node (s : State) :
  runtime = NodeEnv -> assertNodeEnvironment runtime s = (Returns tt, s).
Proof. intros ->. reflexivity. Qed.

Lemma assertNodeEnvironment_elsewhere (s : State) :
  runtime <> NodeEnv ->
  assertNodeEnvironment runtime s = (Throws (EnvironmentError NodeEnv runtime), s).
Proof.
  intros H. unfold assertNodeEnvironment.
  apply Environment_eqb_neq in H. rewrite H. reflexivity.
Qed.

Lemma isPortInUse_elsewhere (port : Z) (options : PortCheckOptions) (s : State) :
  runtime <> NodeEnv ->
  isPortInUse runtime net port options s
  = (Throws (EnvironmentError NodeEnv runtime), s).
Proof.
  intros H. unfold isPortInUse, bind.
  rewrite assertNodeEnvironment_elsewhere by assumption. reflexivity.
Qed.

Lemma isPortInUse_invalid (port : Z) (options : PortCheckOptions) (s : State) :
  runtime = NodeEnv -> ~ valid_port port ->
  isPortInUse runtime net port options s
  = (Throws (PortError (MsgInvalidPort port) (Some port) None), s).
Proof.
  intros Hn Hp. unfold isPortInUse, bind.
  rewrite assertNodeEnvironment_node by assumption.
  rewrite validatePort_invalid by assumption. reflexivity.
Qed.

Lemma isPortInUse_probe (port : Z) (options : PortCheckOptions) (s : State) :
  runtime = NodeEnv -> valid_port port ->
  let h := default "localhost"%string (host options) in
  let t := default 5000 (timeout options) in
  isPortInUse runtime net port options s
  = (match fst (net (probes s) port h t) with
     | Resolves reachable => Returns reachable
     | Rejects e =>
         Throws (PortError (MsgCheckFailed port h (message_of e))
                           (Some port) (Some h))
     end,
     after_probe net s port h t).
Proof.
  intros Hn Hp h t. unfold isPortInUse, bind.
  rewrite assertNodeEnvironment_node by assumption.
  rewrite validatePort_valid by assumption.
  unfold try_catch, isPortReachable, after_probe. fold h t.
  destruct (net (probes s) port h t) as [[b|e] took]; reflexivity.
Qed.

(** What [isPortAvailable] does in each of the three situations. *)
Lemma isPortAvailable_elsewhere (port : Z) (options : PortCheckOptions) (s : State) :
  runtime <> NodeEnv ->
  isPortAvailable runtime net port options s
  = (Throws (EnvironmentError NodeEnv runtime), s).
Proof.
  intros H. unfold isPortAvailable, bind.
  rewrite isPortInUse_elsewhere by assumption. reflexivity.
Qed.

Lemma isPortAvailable_invalid (port : Z) (options : PortCheckOptions) (s : State) :
  runtime = NodeEnv -> ~ valid_port port ->
  isPortAvailable runtime net port options s
  = (Throws (PortError (MsgInvalidPort port) (Some port) None), s).
Proof.
  intros Hn Hp. unfold isPortAvailable, bind.
  rewrite isPortInUse_invalid by assumption. reflexivity.
Qed.

Lemma isPortAvailable_probe (port : Z) (options : PortCheckOptions) (s : State) :
  runtime = NodeEnv -> valid_port port ->
  let h := default "localhost"%string (host options) in
  let t := default 5000 (timeout options) in
  isPortAvailable runtime net port options s
  = (match fst (net (probes s) port h t) with
     | Resolves reachable => Returns (negb reachable)
     | Rejects e =>
         Throws (PortError (MsgCheckFailed port h (message_of e))
                           (Some port) (Some h))
     end,
     after_probe net s port h t).
Proof.
  intros Hn Hp h t. unfold isPortAvailable, bind.
  rewrite isPortInUse_probe by assumption. fold h t.
  destruct (fst (net (probes s) port h t)); reflexivity.
Qed.

End Probing.

(** ** The scan loop *)

Lemma probed_app (a b : list Event) : probed (a ++ b) = probed a ++ probed b.
Proof.
  induction a as [|[p h t|p m|ms] a IH]; simpl; rewrite ?IH; reflexivity.
Qed.

Lemma ports_from_length (start : Z) (n : nat) :
  List.length (ports_from start n) = n.
Proof. revert start. induction n; intros; simpl; [|rewrite IHn]; reflexivity. Qed.

Lemma ports_from_snoc (start : Z) (n : nat) :
  ports_from start (S n) = ports_from start n ++ [start + Z.of_nat n].
Proof.
  revert start. induction n as [|n IH]; intros start.
  - simpl. f_equal. lia.
  - change (ports_from start (S (S n)))
      with (start :: ports_from (start + 1) (S n)).
    rewrite IH. simpl. do 3 f_equal. lia.
Qed.

Lemma in_ports_from (start : Z) (n : nat) (p : Z) :
  In p (ports_from start n) <-> start <= p < start + Z.of_nat n.
Proof.
  revert start. induction n as [|n IH]; intros start.
  - simpl. lia.
  - simpl ports_from. simpl In. rewrite IH. lia.
Qed.

Lemma while_S {V R} (fuel : nat) (iter : V -> M (Flow V R)) (v : V) (s : State) :
  while (S fuel) iter v s
  = match iter v s with
    | (Returns (Next v'), s') => while fuel iter v' s'
    | (Returns (Return r), s') => (Returns (inr r), s')
    | (Returns (Exit v'), s') => (Returns (inl v'), s')
    | (Throws e, s') => (Throws e, s')
    | (OutOfFuel, s') => (OutOfFuel, s')
    end.
Proof.
  simpl. unfold bind. destruct (iter v s) as [[[v'|r|v']|e|] s']; reflexivity.
Qed.

(** A bounded search either fails everywhere or has a first success. *)
Lemma first_success (f : nat -> bool) (n : nat) :
  (forall k, (k < n)%nat -> f k = false) \/
  (exists k, (k < n)%nat /\ f k = true /\ forall j, (j < k)%nat -> f j = false).
Proof.
  induction n as [|n [IH|[k [Hk [Hf Hj]]]]].
  - left. intros k Hk. lia.
  - destruct (f n) eqn:E.
    + right. exists n. repeat split; auto.
    + left. intros k Hk. destruct (Nat.eq_dec k n); [subst; auto | apply IH; lia].
  - right. exists k. repeat split; auto.
Qed.

Section Scan.

Variable runtime : Environment.
Variable net : nat -> Z -> string -> Z -> ProbeReply * Z.
Variables (E maxTries : Z) (h : string) (t : Z).

Let iter := scan_iter runtime net E maxTries h t.
Let node := Environment_eqb runtime NodeEnv.

Lemma scan_iter_exit (v : ScanVars) (s : State) :
  (currentPort v <=? E) && (attempts v <? maxTries) = false ->
  iter v s = (Returns (Exit v), s).
Proof. intros H. unfold iter, scan_iter. rewrite H. reflexivity. Qed.

Lemma scan_iter_hit (v : ScanVars) (s : State) :
  valid_port (currentPort v) ->
  (currentPort v <=? E) && (attempts v <? maxTries) = true ->
  observed_free runtime net (probes s) (currentPort v) h t = true ->
  iter v s = (Returns (Return (currentPort v)),
              after_probe net s (currentPort v) h t).
Proof.
  intros Hv Hc Hf. unfold iter, scan_iter. rewrite Hc.
  unfold observed_free in Hf. apply andb_prop in Hf as [Hn Hf].
  apply Environment_eqb_eq in Hn.
  unfold bind at 1. unfold try_catch, bind at 1.
  rewrite isPortAvailable_probe by assumption. simpl default.
  destruct (fst (net (probes s) (currentPort v) h t)) as [[|]|e];
    try discriminate. reflexivity.
Qed.

Lemma scan_iter_miss (v : ScanVars) (s : State) :
  valid_port (currentPort v) ->
  (currentPort v <=? E) && (attempts v <? maxTries) = true ->
  observed_free runtime net (probes s) (currentPort v) h t = false ->
  exists s',
    iter v s = (Returns (Next (mkScanVars (currentPort v + 1) (attempts v + 1))), s')
    /\ probes s' = (if node then S (probes s) else probes s)
    /\ probed (trace s')
       = probed (trace s) ++ (if node then [currentPort v] else []).
Proof.
  intros Hv Hc Hf. unfold iter, scan_iter. rewrite Hc.
  unfold observed_free in Hf. fold node in Hf. unfold node in *.
  destruct (Environment_eqb runtime NodeEnv) eqn:Hn.
  - apply Environment_eqb_eq in Hn. simpl in Hf.
    unfold bind at 1. unfold try_catch, bind at 1.
    rewrite isPortAvailable_probe by assumption. simpl default.
    destruct (fst (net (probes s) (currentPort v) h t)) as [[|]|e];
      try discriminate; run; eexists; (split; [reflexivity|]); simpl;
      rewrite ?probed_app; simpl; rewrite ?app_nil_r; auto.
  - apply Environment_eqb_neq in Hn.
    unfold bind at 1. unfold try_catch, bind at 1.
    rewrite isPortAvailable_elsewhere by assumption. run.
    eexists; (split; [reflexivity|]); simpl.
    rewrite probed_app. simpl. auto.
Qed.

(** [n] attempts in a row that do not find a free port. *)
Lemma scan_skip (n : nat) : forall (v : ScanVars) (s : State) (fuel : nat),
  1 <= currentPort v -> E <= 65535 ->
  ((0 < n)%nat -> Z.of_nat n <= E - currentPort v + 1) ->
  ((0 < n)%nat -> Z.of_nat n <= maxTries - attempts v) ->
  (forall k, (k < n)%nat ->
     observed_free runtime net (probes s + k) (currentPort v + Z.of_nat k) h t
     = false) ->
  exists s',
    while (n + fuel) iter v s
    = while fuel iter
            (mkScanVars (currentPort v + Z.of_nat n) (attempts v + Z.of_nat n)) s'
    /\ probes s' = (if node then (probes s + n)%nat else probes s)
    /\ probed (trace s')
       = probed (trace s) ++ (if node then ports_from (currentPort v) n else []).
Proof.
  induction n as [|n IH]; intros v s fuel H1 HE Hn Hm Hfree.
  - exists s. destruct v as [cp at']. simpl.
    rewrite !Z.add_0_r, Nat.add_0_r.
    destruct node; rewrite app_nil_r; auto.
  - specialize (Hn ltac:(lia)). specialize (Hm ltac:(lia)).
    assert (Hc : (currentPort v <=? E) && (attempts v <? maxTries) = true).
    { apply andb_true_intro. split; [apply Z.leb_le | apply Z.ltb_lt]; lia. }
    assert (Hv : valid_port (currentPort v)) by (unfold valid_port; lia).
    destruct (scan_iter_miss v s Hv Hc) as [s1 [Hit [Hp1 Ht1]]].
    { specialize (Hfree O ltac:(lia)).
      rewrite Nat.add_0_r, Z.add_0_r in Hfree. exact Hfree. }
    assert (Hrest : forall k, (k < n)%nat ->
              observed_free runtime net (probes s1 + k)
                            (currentPort v + 1 + Z.of_nat k) h t = false).
    { intros k Hk. unfold observed_free. fold node.
      destruct node eqn:Hnode; [|reflexivity].
      rewrite Hp1. specialize (Hfree (S k) ltac:(lia)).
      unfold observed_free in Hfree. fold node in Hfree.
      rewrite Hnode in Hfree.
      replace (S (probes s) + k)%nat with (probes s + S k)%nat by lia.
      replace (currentPort v + 1 + Z.of_nat k)
        with (currentPort v + Z.of_nat (S k)) by lia.
      exact Hfree. }
    destruct (IH (mkScanVars (currentPort v + 1) (attempts v + 1)) s1 fuel)
      as [s' [Hw [Hp' Ht']]];
      [cbn [currentPort attempts]; lia | assumption
      | cbn [currentPort attempts]; lia | cbn [currentPort attempts]; lia
      | exact Hrest |].
    cbn [currentPort attempts] in Hw, Ht'.
    exists s'. split; [|split].
    + change (S n + fuel)%nat with (S (n + fuel)).
      rewrite while_S, Hit, Hw.
      replace (currentPort v + Z.of_nat (S n))
        with (currentPort v + 1 + Z.of_nat n) by lia.
      replace (attempts v + Z.of_nat (S n))
        with (attempts v + 1 + Z.of_nat n) by lia.
      reflexivity.
    + rewrite Hp', Hp1. destruct node; lia.
    + rewrite Ht', Ht1. destruct node.
      * rewrite <- app_assoc. reflexivity.
      * rewrite !app_nil_r. reflexivity.
Qed.

End Scan.

(** ** The scanner as a whole *)

Section Scanner.

Variable runtime : Environment.
Variable net : nat -> Z -> string -> Z -> ProbeReply * Z.
Variable o : FindPortOptions.

Let node := Environment_eqb runtime NodeEnv.
Let iter := scan_iter runtime net (end_of o) (tries_of o) (host_of o) (timeout_of o).

(** The [k]-th attempt of a scan started in state [s] finds its port free. *)
Let free (s : State) (k : nat) : bool :=
  observed_free runtime net (probes s + k) (start_of o + Z.of_nat k)
                (host_of o) (timeout_of o).

Lemma findAvailablePort_scan (s : State) :
  valid_port (start_of o) -> valid_port (end_of o) -> start_of o <= end_of o ->
  findAvailablePort runtime net o s
  = match while (scan_fuel (start_of o) (end_of o)) iter
                (mkScanVars (start_of o) 0) s with
    | (Returns (inr port), s') => (Returns port, s')
    | (Returns (inl v), s') => (Throws (exhausted o (attempts v)), s')
    | (Throws e, s') => (Throws e, s')
    | (OutOfFuel, s') => (OutOfFuel, s')
    end.
Proof.
  intros HS HE Hle. unfold findAvailablePort.
  fold (start_of o) (end_of o) (tries_of o) (host_of o) (timeout_of o).
  unfold bind at 1. rewrite validatePort_valid by assumption.
  unfold bind at 1. rewrite validatePort_valid by assumption.
  destruct (Z.gtb_spec (start_of o) (end_of o)); [lia|].
  unfold bind. fold iter.
  destruct (while _ iter _ s) as [[[v|p]|e|] s']; reflexivity.
Qed.

Lemma scan_fuel_split (n : nat) :
  start_of o <= end_of o ->
  Z.of_nat n <= end_of o - start_of o + 1 ->
  exists m, scan_fuel (start_of o) (end_of o) = (n + S m)%nat.
Proof.
  intros Hle Hn. unfold scan_fuel.
  exists (Z.to_nat (end_of o - start_of o) + 1 - n)%nat. lia.
Qed.

Lemma find_exhausts (s : State) :
  valid_port (start_of o) -> valid_port (end_of o) -> start_of o <= end_of o ->
  (forall k, (k < scan_bound o)%nat -> free s k = false) ->
  exists s',
    findAvailablePort runtime net o s
    = (Throws (exhausted o (Z.of_nat (scan_bound o))), s')
    /\ probes s' = (if node then (probes s + scan_bound o)%nat else probes s)
    /\ probed (trace s')
       = probed (trace s)
           ++ (if node then ports_from (start_of o) (scan_bound o) else []).
Proof.
  intros HS HE Hle Hfree. unfold valid_port in *.
  assert (Hb1 : Z.of_nat (scan_bound o) <= end_of o - start_of o + 1)
    by (unfold scan_bound; lia).
  destruct (scan_fuel_split (scan_bound o) Hle Hb1) as [m Hm].
  destruct (scan_skip runtime net (end_of o) (tries_of o) (host_of o)
              (timeout_of o) (scan_bound o) (mkScanVars (start_of o) 0) s (S m))
    as [s' [Hw [Hp Ht]]]; cbn [currentPort attempts];
    try (unfold scan_bound; lia); [exact Hfree|].
  cbn [currentPort attempts] in Hw, Ht.
  exists s'. split; [|split; assumption].
  rewrite findAvailablePort_scan by (unfold valid_port; auto).
  fold iter in Hw. rewrite Hm, Hw, while_S.
  unfold iter. rewrite scan_iter_exit.
  - reflexivity.
  - cbn [currentPort attempts]. apply andb_false_iff.
    destruct (Z.le_gt_cases (tries_of o) (end_of o - start_of o + 1)).
    + right. apply Z.ltb_ge. unfold scan_bound. lia.
    + left. apply Z.leb_gt. unfold scan_bound. lia.
Qed.

Lemma find_hits (s : State) (k : nat) :
  valid_port (start_of o) -> valid_port (end_of o) -> start_of o <= end_of o ->
  (k < scan_bound o)%nat -> free s k = true ->
  (forall j, (j < k)%nat -> free s j = false) ->
  exists s',
    findAvailablePort runtime net o s = (Returns (start_of o + Z.of_nat k), s')
    /\ runtime = NodeEnv
    /\ probes s' = (probes s + S k)%nat
    /\ probed (trace s') = probed (trace s) ++ ports_from (start_of o) (S k).
Proof.
  intros HS HE Hle Hk Hfree Hmiss. unfold valid_port in *.
  assert (Hb : Z.of_nat (scan_bound o)
               = Z.min (end_of o - start_of o + 1) (tries_of o))
    by (unfold scan_bound in *; lia).
  assert (Hnode : node = true).
  { unfold free, observed_free in Hfree. apply andb_prop in Hfree. tauto. }
  assert (Hb1 : Z.of_nat k <= end_of o - start_of o + 1) by lia.
  destruct (scan_fuel_split k Hle Hb1) as [m Hm].
  destruct (scan_skip runtime net (end_of o) (tries_of o) (host_of o)
              (timeout_of o) k (mkScanVars (start_of o) 0) s (S m))
    as [s1 [Hw [Hp Ht]]]; cbn [currentPort attempts]; try lia;
    [exact Hmiss|].
  cbn [currentPort attempts] in Hw, Ht. fold node in Hp, Ht.
  rewrite Hnode in Hp, Ht.
  exists (after_probe net s1 (start_of o + Z.of_nat k) (host_of o) (timeout_of o)).
  split; [|split; [|split]].
  - rewrite findAvailablePort_scan by (unfold valid_port; auto).
    fold iter in Hw. rewrite Hm, Hw, while_S.
    unfold iter. rewrite scan_iter_hit.
    + reflexivity.
    + cbn [currentPort]. unfold valid_port. lia.
    + cbn [currentPort attempts]. apply andb_true_intro.
      split; [apply Z.leb_le | apply Z.ltb_lt]; lia.
    + cbn [currentPort]. rewrite Hp. exact Hfree.
  - apply Environment_eqb_eq. exact Hnode.
  - simpl. lia.
  - unfold after_probe. cbn [trace].
    rewrite probed_app, Ht, ports_from_snoc. cbn [probed].
    rewrite <- app_assoc. reflexivity.
Qed.

(** The two cases above are the only ones. *)
Lemma find_cases (s : State) :
  valid_port (start_of o) -> valid_port (end_of o) -> start_of o <= end_of o ->
  (exists s',
     (forall k, (k < scan_bound o)%nat -> free s k = false)
     /\ findAvailablePort runtime net o s
        = (Throws (exhausted o (Z.of_nat (scan_bound o))), s')
     /\ probes s' = (if node then (probes s + scan_bound o)%nat else probes s)
     /\ probed (trace s')
        = probed (trace s)
            ++ (if node then ports_from (start_of o) (scan_bound o) else []))
  \/
  (exists k s',
     (k < scan_bound o)%nat /\ free s k = true
     /\ (forall j, (j < k)%nat -> free s j = false)
     /\ findAvailablePort runtime net o s
        = (Returns (start_of o + Z.of_nat k), s')
     /\ runtime = NodeEnv
     /\ probes s' = (probes s + S k)%nat
     /\ probed (trace s') = probed (trace s) ++ ports_from (start_of o) (S k)).
Proof.
  intros HS HE Hle.
  destruct (first_success (free s) (scan_bound o)) as [Hnone|[k [Hk [Hf Hj]]]].
  - left. destruct (find_exhausts s HS HE Hle Hnone) as [s' H].
    exists s'. tauto.
  - right. destruct (find_hits s k HS HE Hle Hk Hf Hj) as [s' H].
    exists k, s'. tauto.
Qed.

(** A scan that gets past the input checks has a valid range. *)
Lemma findAvailablePort_checked (s : State) :
  (valid_port (start_of o) /\ valid_port (end_of o) /\ start_of o <= end_of o)
  \/ (exists e, is_validation_error e
                /\ findAvailablePort runtime net o s = (Throws e, s)).
Proof.
  destruct (valid_port_dec (start_of o)) as [HS|HS];
    [destruct (valid_port_dec (end_of o)) as [HE|HE];
     [destruct (Z_le_dec (start_of o) (end_of o)) as [Hle|Hle]|]|].
  - left. auto.
  - right. eexists. split; [|unfold findAvailablePort;
      fold (start_of o) (end_of o);
      unfold bind at 1; rewrite validatePort_valid by assumption;
      unfold bind at 1; rewrite validatePort_valid by assumption;
      destruct (Z.gtb_spec (start_of o) (end_of o)); [reflexivity|lia]].
    exact I.
  - right. eexists. split; [|unfold findAvailablePort;
      fold (start_of o) (end_of o);
      unfold bind at 1; rewrite validatePort_valid by assumption;
      unfold bind at 1; rewrite validatePort_invalid by assumption;
      reflexivity].
    exact I.
  - right. eexists. split; [|unfold findAvailablePort;
      fold (start_of o) (end_of o);
      unfold bind at 1; rewrite validatePort_invalid by assumption;
      reflexivity].
    exact I.
Qed.

End Scanner.

(** The fuel of the scan is never used up. *)
Lemma findAvailablePort_total runtime net (o : FindPortOptions) (s : State) :
  fst (findAvailablePort runtime net o s) <> OutOfFuel.
Proof.
  destruct (findAvailablePort_checked runtime net o s)
    as [[HS [HE Hle]]|[e [_ He]]]; [|rewrite He; discriminate].
  destruct (find_cases runtime net o s HS HE Hle)
    as [[s1 [_ [Hr _]]]|[k [s1 [_ [_ [_ [Hr _]]]]]]];
    rewrite Hr; discriminate.
Qed.

(** ** Port validation *)

(** C9: the port-number validator accepts every integer p with
    1 <= p <= 65535 and rejects every other integer with a validation
    error; it touches neither the network nor the clock. *)
Theorem validatePort_accepts_exactly_1_to_65535 : forall (p : Z) (s : State),
  (validatePort p s = (Returns tt, s) <-> 1 <= p <= 65535)
  /\ (validatePort p s
      = (Throws (PortError (MsgInvalidPort p) (Some p) None), s)
      <-> ~ (1 <= p <= 65535)).
Proof.
  intros p s. destruct (valid_port_dec p) as [H|H].
  - rewrite (validatePort_valid p s H). unfold valid_port in H.
    split; split; intros; try tauto; try discriminate.
  - rewrite (validatePort_invalid p s H). unfold valid_port in H.
    split; split; intros; try tauto; try discriminate.
Qed.

(** ** The two single-port probes *)

(** C8: whenever the underlying probe completes without error,
    [isPortAvailable] returns exactly the negation of what [isPortInUse]
    returns for the same port, host and timeout at the same instant, and
    leaves the same state behind. *)
Theorem isPortAvailable_negates_isPortInUse :
  forall runtime net (port : Z) (options : PortCheckOptions) (s s' : State)
         (inUse : bool),
    isPortInUse runtime net port options s = (Returns inUse, s') ->
    isPortAvailable runtime net port options s = (Returns (negb inUse), s').
Proof.
  intros runtime net port options s s' inUse H.
  unfold isPortAvailable, bind. rewrite H. reflexivity.
Qed.

Lemma isPortAvailable_negates_isPortInUse_witness :
  isPortAvailable NodeEnv all_busy 3000 no_options fresh
  = (Returns (negb true), mkState 2 1 [Probe 3000 "localhost" 5000]).
Proof.
  apply (isPortAvailable_negates_isPortInUse NodeEnv all_busy 3000 no_options
           fresh (mkState 2 1 [Probe 3000 "localhost" 5000]) true).
  reflexivity.
Defined.

(** ** The port scanner *)

(** C3: when [findAvailablePort] succeeds it returns the first port
    observed free; that port lies between startPort and endPort; the ports
    probed are startPort, startPort + 1, ..., up to the returned port, one
    probe per attempt whatever the earlier probes answered (in use, or a
    probe error). *)
Theorem findAvailablePort_returns_first_free :
  forall runtime net (o : FindPortOptions) (s s' : State) (p : Z),
    findAvailablePort runtime net o s = (Returns p, s') ->
    start_of o <= p <= end_of o
    /\ probed (trace s')
       = probed (trace s)
           ++ ports_from (start_of o) (Z.to_nat (p - start_of o + 1))
    /\ probes s' = (probes s + Z.to_nat (p - start_of o + 1))%nat
    /\ observed_free runtime net (probes s + Z.to_nat (p - start_of o)) p
                     (host_of o) (timeout_of o) = true
    /\ (forall q, start_of o <= q < p ->
          observed_free runtime net (probes s + Z.to_nat (q - start_of o)) q
                        (host_of o) (timeout_of o) = false).
Proof.
  intros runtime net o s s' p H.
  destruct (findAvailablePort_checked runtime net o s)
    as [[HS [HE Hle]]|[e [_ He]]]; [|congruence].
  destruct (find_cases runtime net o s HS HE Hle)
    as [[s1 [_ [Hr _]]]|[k [s1 [Hk [Hf [Hj [Hr [_ [Hp Ht]]]]]]]]]; [congruence|].
  rewrite Hr in H. injection H as <- <-.
  assert (Hb : Z.of_nat (scan_bound o) <= end_of o - start_of o + 1)
    by (unfold scan_bound; lia).
  replace (start_of o + Z.of_nat k - start_of o + 1) with (Z.of_nat (S k)) by lia.
  replace (start_of o + Z.of_nat k - start_of o) with (Z.of_nat k) by lia.
  rewrite !Nat2Z.id. repeat split; try lia; try assumption.
  intros q Hq.
  specialize (Hj (Z.to_nat (q - start_of o)) ltac:(lia)).
  replace (start_of o + Z.of_nat (Z.to_nat (q - start_of o))) with q in Hj by lia.
  exact Hj.
Qed.

Lemma findAvailablePort_returns_first_free_witness :
  3000 <= 3003 <= 65535
  /\ probed [Probe 3000 "localhost" 5000; Probe 3001 "localhost" 5000;
             Probe 3002 "localhost" 5000;
             Warn 3002 (MsgCheckFailed 3002 "localhost" (MsgText "EHOSTUNREACH"));
             Probe 3003 "localhost" 5000]
     = probed [] ++ ports_from 3000 (Z.to_nat (3003 - 3000 + 1))
  /\ (4 = 0 + Z.to_nat (3003 - 3000 + 1))%nat
  /\ observed_free NodeEnv (free_above 3002) (0 + Z.to_nat (3003 - 3000)) 3003
                   "localhost" 5000 = true
  /\ (forall q, 3000 <= q < 3003 ->
        observed_free NodeEnv (free_above 3002) (0 + Z.to_nat (q - 3000)) q
                      "localhost" 5000 = false).
Proof.
  apply (findAvailablePort_returns_first_free NodeEnv (free_above 3002)
           no_find_options fresh
           (mkState 4 4
              [Probe 3000 "localhost" 5000; Probe 3001 "localhost" 5000;
               Probe 3002 "localhost" 5000;
               Warn 3002 (MsgCheckFailed 3002 "localhost" (MsgText "EHOSTUNREACH"));
               Probe 3003 "localhost" 5000])
           3003).
  vm_compute. reflexivity.
Defined.

(** C4: a scan over a well-formed range ends with the exhaustion error
    exactly when none of its attempts found a free port, the attempts
    being cut off by the end of the range or by maxTries, whichever comes
    first; the error reports the range and the number of attempts; no
    other error can come out; with maxTries = 1 at most one port is
    probed. *)
Theorem findAvailablePort_exhaustion_exactly :
  forall runtime net (o : FindPortOptions) (s : State),
    valid_port (start_of o) -> valid_port (end_of o) ->
    start_of o <= end_of o ->
    let n := scan_bound o in
    let r := findAvailablePort runtime net o s in
    ((forall k, (k < n)%nat ->
        observed_free runtime net (probes s + k) (start_of o + Z.of_nat k)
                      (host_of o) (timeout_of o) = false)
     <-> fst r = Throws (exhausted o (Z.of_nat n)))
    /\ (forall e, fst r = Throws e -> e = exhausted o (Z.of_nat n))
    /\ fst r <> OutOfFuel
    /\ (end_of o < start_of o + Z.of_nat n \/ tries_of o <= Z.of_nat n)
    /\ (List.length (probed (trace (snd r)))
        <= List.length (probed (trace s)) + n)%nat
    /\ (tries_of o = 1 ->
        (List.length (probed (trace (snd r)))
         <= List.length (probed (trace s)) + 1)%nat).
Proof.
  intros runtime net o s HS HE Hle n r.
  assert (Hcut : end_of o < start_of o + Z.of_nat n \/ tries_of o <= Z.of_nat n)
    by (unfold n, scan_bound; lia).
  assert (Hone : tries_of o = 1 -> (n <= 1)%nat)
    by (unfold n, scan_bound; lia).
  destruct (find_cases runtime net o s HS HE Hle)
    as [[s1 [Hnone [Hr [_ Ht]]]]|[k [s1 [Hk [Hf [Hj [Hr [_ [_ Ht]]]]]]]]];
    unfold r; rewrite Hr; cbn [fst snd]; rewrite Ht, length_app.
  - repeat split; auto; try discriminate.
    + intros e He. injection He as <-. reflexivity.
    + destruct (Environment_eqb runtime NodeEnv); simpl;
        rewrite ?ports_from_length; fold n; lia.
    + intros H1. specialize (Hone H1).
      destruct (Environment_eqb runtime NodeEnv); simpl;
        rewrite ?ports_from_length; fold n; lia.
  - rewrite ports_from_length. repeat split; auto; try discriminate.
    + intros Hnone. rewrite (Hnone k Hk) in Hf. discriminate.
    + fold n in Hk. lia.
    + intros H1. specialize (Hone H1). fold n in Hk. lia.
Qed.

Lemma findAvailablePort_exhaustion_exactly_witness :
  let o := mkFindPortOptions None None (Some 3000) (Some 3002) (Some 1) in
  let r := findAvailablePort NodeEnv all_busy o fresh in
  ((forall k, (k < 1)%nat ->
      observed_free NodeEnv all_busy (0 + k) (3000 + Z.of_nat k)
                    "localhost" 5000 = false)
   <-> fst r = Throws (PortError (MsgNoAvailablePort 3000 3002 1) None
                                 (Some "localhost")))
  /\ (forall e, fst r = Throws e ->
        e = PortError (MsgNoAvailablePort 3000 3002 1) None (Some "localhost"))
  /\ fst r <> OutOfFuel
  /\ (3002 < 3000 + 1 \/ 1 <= 1)
  /\ (List.length (probed (trace (snd r))) <= 0 + 1)%nat
  /\ (1 = 1 -> (List.length (probed (trace (snd r))) <= 0 + 1)%nat).
Proof.
  apply (findAvailablePort_exhaustion_exactly NodeEnv all_busy
           (mkFindPortOptions None None (Some 3000) (Some 3002) (Some 1)) fresh);
    unfold valid_port, start_of, end_of; simpl; lia.
Defined.




(** ** The batch prober *)

Lemma Map_get_set (m : PortMap) (k p : Z) (v : bool) :
  Map_get (Map_set m k v) p = if k =? p then Some v else Map_get m p.
Proof.
  induction m as [|[k0 v0] m IH]; simpl.
  - reflexivity.
  - destruct (Z.eqb_spec k0 k) as [->|Hk]; simpl.
    + destruct (k =? p); reflexivity.
    + rewrite IH. destruct (Z.eqb_spec k0 p) as [->|Hp]; [|reflexivity].
      destruct (Z.eqb_spec k p); [congruence|reflexivity].
Qed.

Lemma Map_keys_set_in (m : PortMap) (k p : Z) (v : bool) :
  In p (Map_keys (Map_set m k v)) <-> p = k \/ In p (Map_keys m).
Proof.
  unfold Map_keys. induction m as [|[k0 v0] m IH]; simpl.
  - intuition.
  - destruct (Z.eqb_spec k0 k) as [->|Hk]; simpl.
    + intuition.
    + rewrite IH. intuition.
Qed.

Lemma Map_keys_set_NoDup (m : PortMap) (k : Z) (v : bool) :
  NoDup (Map_keys m) -> NoDup (Map_keys (Map_set m k v)).
Proof.
  induction m as [|[k0 v0] m IH]; intros H.
  - simpl. constructor; [intros []|constructor].
  - simpl. destruct (Z.eqb_spec k0 k) as [->|Hk].
    + exact H.
    + inversion H as [|x l Hin Hnd]; subst.
      change (NoDup (k0 :: Map_keys (Map_set m k v))).
      constructor; [|auto].
      rewrite Map_keys_set_in. intros [->|Hin']; [congruence|contradiction].
Qed.

Lemma build_map_snoc (l : list (Z * bool)) (k : Z) (v : bool) :
  build_map (l ++ [(k, v)]) = Map_set (build_map l) k v.
Proof. unfold build_map. rewrite fold_left_app. reflexivity. Qed.

Lemma build_map_keys (l : list (Z * bool)) :
  NoDup (Map_keys (build_map l))
  /\ forall p, In p (Map_keys (build_map l)) <-> In p (map fst l).
Proof.
  induction l as [|[k v] l [IHn IHi]] using rev_ind.
  - split; [constructor|]. simpl. tauto.
  - rewrite build_map_snoc. split.
    + apply Map_keys_set_NoDup. exact IHn.
    + intros p. rewrite Map_keys_set_in, map_app, in_app_iff, IHi. simpl.
      intuition.
Qed.

Section Batch.

Variable runtime : Environment.
Variable net : nat -> Z -> string -> Z -> ProbeReply * Z.
Variable options : PortCheckOptions.

Let node := Environment_eqb runtime NodeEnv.
Let h := default "localhost" (host options).
Let t := default 5000 (timeout options).

Lemma observations_ports (i : nat) (ports : list Z) :
  map fst (observations runtime net i ports h t) = ports.
Proof.
  revert i. induction ports as [|p ports IH]; intros i; simpl;
    [|rewrite IH]; reflexivity.
Qed.

Lemma observations_elsewhere (i j : nat) (ports : list Z) :
  node = false ->
  observations runtime net i ports h t = observations runtime net j ports h t.
Proof.
  intros Hn. revert i j. induction ports as [|p ports IH]; intros i j; simpl.
  - reflexivity.
  - rewrite (IH (S i) (S j)). unfold observed_free. fold node.
    rewrite Hn. reflexivity.
Qed.

Lemma observations_all_false (i : nat) (ports : list Z) :
  node = false ->
  observations runtime net i ports h t = map (fun p => (p, false)) ports.
Proof.
  intros Hn. revert i. induction ports as [|p ports IH]; intros i; simpl.
  - reflexivity.
  - rewrite IH. unfold observed_free. fold node. rewrite Hn. reflexivity.
Qed.

Lemma observations_snoc (i : nat) (ports : list Z) (q : Z) :
  observations runtime net i (ports ++ [q]) h t
  = observations runtime net i ports h t
      ++ [(q, observed_free runtime net (i + List.length ports) q h t)].
Proof.
  revert i. induction ports as [|p ports IH]; intros i; simpl.
  - rewrite Nat.add_0_r. reflexivity.
  - rewrite IH.
    replace (S i + List.length ports)%nat
      with (i + S (List.length ports))%nat by lia.
    reflexivity.
Qed.

Lemma forEach_validatePort_valid (ports : list Z) (s : State) :
  Forall valid_port ports ->
  forEach validatePort ports s = (Returns tt, s).
Proof.
  induction 1 as [|p ports Hp _ IH]; simpl.
  - reflexivity.
  - unfold bind. rewrite validatePort_valid by assumption. exact IH.
Qed.

Lemma forEach_validatePort_invalid (ports : list Z) (s : State) :
  Exists (fun p => ~ valid_port p) ports ->
  exists q, In q ports /\ ~ valid_port q
            /\ forEach validatePort ports s
               = (Throws (PortError (MsgInvalidPort q) (Some q) None), s).
Proof.
  induction ports as [|p ports IH]; intros H.
  - inversion H.
  - destruct (valid_port_dec p) as [Hp|Hp].
    + inversion H as [? ? Hbad|? ? Hrest]; subst; [contradiction|].
      destruct (IH Hrest) as [q [Hin [Hq Hr]]].
      exists q. repeat split; [right; assumption|assumption|].
      simpl. unfold bind. rewrite validatePort_valid by assumption. exact Hr.
    + exists p. repeat split; [left; reflexivity|assumption|].
      simpl. unfold bind. rewrite validatePort_invalid by assumption.
      reflexivity.
Qed.

Lemma check_port_valid (port : Z) (s : State) :
  valid_port port ->
  exists s',
    check_port runtime net options port s
    = (Returns (port, observed_free runtime net (probes s) port h t), s')
    /\ probes s' = (if node then S (probes s) else probes s)
    /\ probed (trace s') = probed (trace s) ++ (if node then [port] else []).
Proof.
  intros Hv. unfold check_port, try_catch, bind at 1, observed_free.
  fold node. unfold node. destruct (Environment_eqb runtime NodeEnv) eqn:Hn.
  - apply Environment_eqb_eq in Hn.
    rewrite isPortAvailable_probe by assumption. fold h t.
    destruct (fst (net (probes s) port h t)) as [b|e]; run;
      eexists; (split; [reflexivity|]); simpl;
      rewrite ?probed_app; simpl; rewrite ?app_nil_r; auto.
  - apply Environment_eqb_neq in Hn.
    rewrite isPortAvailable_elsewhere by assumption. run.
    eexists; (split; [reflexivity|]); simpl.
    rewrite probed_app. simpl. auto.
Qed.

Lemma all_from_checks (t0 : Z) (ports : list Z) : forall (s : State),
  Forall valid_port ports ->
  exists s',
    all_from t0 (map (check_port runtime net options) ports) s
    = (Returns (observations runtime net (probes s) ports h t), s')
    /\ probes s' = (if node then (probes s + List.length ports)%nat else probes s)
    /\ probed (trace s') = probed (trace s) ++ (if node then ports else []).
Proof.
  induction ports as [|p ports IH]; intros s Hall.
  - exists s. simpl. rewrite Nat.add_0_r. destruct node; rewrite app_nil_r; auto.
  - inversion Hall as [|? ? Hp Hrest]; subst.
    destruct (check_port_valid p (mkState t0 (probes s) (trace s)) Hp)
      as [s1 [Hc [Hp1 Ht1]]]. simpl in Hc, Hp1, Ht1.
    set (s2 := mkState (Z.max (now s) (now s1)) (probes s1) (trace s1)).
    destruct (IH s2 Hrest) as [s' [Ha [Hp' Ht']]]. simpl in Hp', Ht'.
    exists s'. split; [|split].
    + simpl. unfold bind at 1, concurrently. rewrite Hc.
      fold s2. unfold bind at 1. rewrite Ha. unfold ret.
      do 3 f_equal. subst s2. simpl. rewrite Hp1.
      destruct node eqn:Hn; [reflexivity|].
      apply observations_elsewhere. exact Hn.
    + rewrite Hp', Hp1. simpl. destruct node; lia.
    + rewrite Ht', Ht1. destruct node; rewrite <- app_assoc; reflexivity.
Qed.

Lemma checkMultiplePorts_valid (ports : list Z) (s : State) :
  Forall valid_port ports ->
  exists s',
    checkMultiplePorts runtime net ports options s
    = (Returns (build_map (observations runtime net (probes s) ports h t)), s')
    /\ probed (trace s') = probed (trace s) ++ (if node then ports else [])
    /\ probes s' = (if node then (probes s + List.length ports)%nat else probes s).
Proof.
  intros Hall.
  destruct (all_from_checks (now s) ports s Hall) as [s' [Ha [Hp' Ht']]].
  exists s'. split; [|split; assumption].
  unfold checkMultiplePorts, bind at 1.
  rewrite forEach_validatePort_valid by assumption.
  unfold Promise_all, bind, Date_now. rewrite Ha. reflexivity.
Qed.

Lemma checkMultiplePorts_invalid (ports : list Z) (s : State) :
  Exists (fun p => ~ valid_port p) ports ->
  exists q, In q ports /\ ~ valid_port q
            /\ checkMultiplePorts runtime net ports options s
               = (Throws (PortError (MsgInvalidPort q) (Some q) None), s).
Proof.
  intros H. destruct (forEach_validatePort_invalid ports s H) as [q [Hin [Hq Hr]]].
  exists q. repeat split; try assumption.
  unfold checkMultiplePorts, bind at 1. rewrite Hr. reflexivity.
Qed.

(** The value kept for a port is the observation of its last occurrence. *)
Lemma build_map_last (ports : list Z) (i0 : nat) :
  forall i p,
    nth_error ports i = Some p ->
    (forall j, (i < j)%nat -> nth_error ports j <> Some p) ->
    Map_get (build_map (observations runtime net i0 ports h t)) p
    = Some (observed_free runtime net (i0 + i) p h t).
Proof.
  induction ports as [|q ports IH] using rev_ind; intros i p Hi Hlast.
  - destruct i; discriminate.
  - rewrite observations_snoc, build_map_snoc, Map_get_set.
    destruct (Nat.lt_ge_cases i (List.length ports)) as [Hlt|Hge].
    + rewrite nth_error_app1 in Hi by assumption.
      destruct (Z.eqb_spec q p) as [->|Hqp].
      * exfalso. apply (Hlast (List.length ports) Hlt).
        rewrite nth_error_app2 by lia. rewrite Nat.sub_diag. reflexivity.
      * apply IH; [assumption|].
        intros j Hj Hnth. apply (Hlast j Hj).
        rewrite nth_error_app1; [assumption|].
        apply nth_error_Some. congruence.
    + rewrite nth_error_app2 in Hi by assumption.
      destruct (i - List.length ports)%nat as [|d] eqn:Hd;
        [|destruct d; discriminate].
      simpl in Hi. injection Hi as ->.
      rewrite Z.eqb_refl. do 3 f_equal. lia.
Qed.

End Batch.

(** C6: [checkMultiplePorts] validates every port before it launches any
    probe, and one invalid port rejects the whole batch with nothing
    probed; once all ports are valid the batch never fails: every port is
    probed, and a probe that errors is recorded as [false] (when a port
    occurs more than once, its last occurrence decides). *)
Theorem checkMultiplePorts_validates_then_records :
  forall runtime net (ports : list Z) (options : PortCheckOptions) (s : State),
    let h := default "localhost" (host options) in
    let t := default 5000 (timeout options) in
    (Exists (fun p => ~ valid_port p) ports ->
     exists q, In q ports /\ ~ valid_port q
               /\ checkMultiplePorts runtime net ports options s
                  = (Throws (PortError (MsgInvalidPort q) (Some q) None), s))
    /\ (Forall valid_port ports ->
        exists m s',
          checkMultiplePorts runtime net ports options s = (Returns m, s')
          /\ (runtime = NodeEnv ->
              probed (trace s') = probed (trace s) ++ ports)
          /\ (forall i p,
                nth_error ports i = Some p ->
                (forall j, (i < j)%nat -> nth_error ports j <> Some p) ->
                Map_get m p
                = Some (observed_free runtime net (probes s + i) p h t))
          /\ (forall i p e,
                nth_error ports i = Some p ->
                (forall j, (i < j)%nat -> nth_error ports j <> Some p) ->
                fst (net (probes s + i)%nat p h t) = Rejects e ->
                Map_get m p = Some false)).
Proof.
  intros runtime net ports options s h t. split.
  - apply checkMultiplePorts_invalid.
  - intros Hall.
    destruct (checkMultiplePorts_valid runtime net options ports s Hall)
      as [s' [Hr [Ht _]]].
    eexists. exists s'. split; [exact Hr|]. split; [|split].
    + intros Hn. rewrite Ht, Hn. reflexivity.
    + intros i p Hi Hlast. apply build_map_last; assumption.
    + intros i p e Hi Hlast He.
      rewrite (build_map_last runtime net options ports (probes s) i p Hi Hlast).
      unfold observed_free. fold h t. rewrite He. rewrite andb_false_r.
      reflexivity.
Qed.

(** C7: for valid input ports, duplicates allowed, the map returned by
    [checkMultiplePorts] has exactly one entry per distinct input port:
    its keys are pairwise different, they are exactly the input ports, and
    there are as many entries as distinct input ports. *)
Theorem checkMultiplePorts_one_entry_per_distinct_port :
  forall runtime net (ports : list Z) (options : PortCheckOptions) (s : State),
    Forall valid_port ports ->
    exists m s',
      checkMultiplePorts runtime net ports options s = (Returns m, s')
      /\ NoDup (Map_keys m)
      /\ (forall p, In p (Map_keys m) <-> In p ports)
      /\ List.length m = List.length (nodup Z.eq_dec ports).
Proof.
  intros runtime net ports options s Hall.
  destruct (checkMultiplePorts_valid runtime net options ports s Hall)
    as [s' [Hr _]].
  eexists. exists s'. split; [exact Hr|].
  destruct (build_map_keys
              (observations runtime net (probes s) ports
                 (default "localhost" (host options))
                 (default 5000 (timeout options)))) as [Hnd Hin].
  rewrite observations_ports in Hin.
  split; [exact Hnd|]. split; [exact Hin|].
  rewrite <- (length_map fst). fold (Map_keys (build_map (observations runtime net
    (probes s) ports (default "localhost" (host options))
    (default 5000 (timeout options))))).
  apply Nat.le_antisymm; apply NoDup_incl_length.
  - exact Hnd.
  - intros p Hp. apply nodup_In. apply Hin. exact Hp.
  - apply NoDup_nodup.
  - intros p Hp. apply Hin. apply nodup_In in Hp. exact Hp.
Qed.

Lemma checkMultiplePorts_one_entry_per_distinct_port_witness :
  exists m s',
    checkMultiplePorts NodeEnv (free_above 3000) [3000; 3000; 4000] no_options fresh
    = (Returns m, s')
    /\ NoDup (Map_keys m)
    /\ (forall p, In p (Map_keys m) <-> In p [3000; 3000; 4000])
    /\ List.length m = List.length (nodup Z.eq_dec [3000; 3000; 4000]).
Proof.
  apply (checkMultiplePorts_one_entry_per_distinct_port NodeEnv (free_above 3000)
           [3000; 3000; 4000] no_options fresh).
  repeat constructor; unfold valid_port; lia.
Defined.

(** The example of the specification: two keys, 3000 and 4000. *)
Example checkMultiplePorts_3000_3000_4000 :
  fst (checkMultiplePorts NodeEnv (free_above 3000) [3000; 3000; 4000]
         no_options fresh)
  = Returns [(3000, false); (4000, true)].
Proof. vm_compute. reflexivity. Qed.

(** ** The port watcher *)

Lemma TargetState_eqb_eq (a b : TargetState) :
  TargetState_eqb a b = true <-> a = b.
Proof. destruct a, b; simpl; split; congruence. Qed.

Section Watcher.

Variable runtime : Environment.
Variable net : nat -> Z -> string -> Z -> ProbeReply * Z.
Variables (port : Z) (target : TargetState).
Variables (h : string) (t poll T start : Z).

Hypothesis port_ok : valid_port port.

Let node := Environment_eqb runtime NodeEnv.
Let iter := wait_iter runtime net port target h t poll T start.
Let seen (i : nat) : bool := reached runtime net i port h t target.

Lemma wait_iter_exit (s : State) :
  T <= now s - start -> iter tt s = (Returns (Exit tt), s).
Proof.
  intros H. unfold iter, wait_iter, bind, Date_now.
  destruct (Z.ltb_spec (now s - start) T); [lia|reflexivity].
Qed.

Lemma wait_iter_hit (s : State) :
  now s - start < T -> seen (probes s) = true ->
  iter tt s = (Returns (Return tt), after_probe net s port h t).
Proof.
  intros H Hseen. unfold iter, wait_iter, bind at 1, Date_now.
  destruct (Z.ltb_spec (now s - start) T); [|lia].
  unfold seen, reached in Hseen. apply andb_prop in Hseen as [Hn Hseen].
  apply Environment_eqb_eq in Hn.
  unfold bind at 1. unfold try_catch, bind at 1.
  rewrite isPortInUse_probe by assumption. simpl default.
  destruct (fst (net (probes s) port h t)) as [b|e]; [|discriminate].
  unfold state_of in Hseen. unfold ret. rewrite Hseen. reflexivity.
Qed.

Lemma wait_iter_miss (s : State) :
  now s - start < T -> seen (probes s) = false ->
  exists s1,
    iter tt s = (Returns (Next tt), s1)
    /\ probes s1 = (if node then S (probes s) else probes s)
    /\ now s1 = now s + (if node then snd (net (probes s) port h t) else 0)
                + Z.max 0 poll
    /\ exists evs, trace s1 = trace s ++ evs.
Proof.
  intros H Hseen. unfold iter, wait_iter, bind at 1, Date_now.
  destruct (Z.ltb_spec (now s - start) T); [|lia].
  unfold seen, reached in Hseen. fold node in Hseen. unfold node in *.
  destruct (Environment_eqb runtime NodeEnv) eqn:Hn.
  - apply Environment_eqb_eq in Hn. simpl in Hseen.
    unfold bind at 1. unfold try_catch, bind at 1.
    rewrite isPortInUse_probe by assumption. simpl default.
    destruct (fst (net (probes s) port h t)) as [b|e].
    + unfold state_of in Hseen. unfold ret at 1. rewrite Hseen. run.
      eexists. split; [reflexivity|]. simpl. repeat split.
      rewrite <- app_assoc. eexists. reflexivity.
    + run. eexists. split; [reflexivity|]. simpl. repeat split.
      rewrite <- !app_assoc. eexists. reflexivity.
  - apply Environment_eqb_neq in Hn.
    unfold bind at 1. unfold try_catch, bind at 1.
    rewrite isPortInUse_elsewhere by assumption. run.
    eexists. split; [reflexivity|]. simpl. repeat split; [lia|].
    rewrite <- app_assoc. eexists. reflexivity.
Qed.

Hypothesis poll_pos : 0 < poll.
Hypothesis timely :
  forall i, 0 <= (if node then snd (net i port h t) else 0) <= t.

(** The loop of the watcher, from any loop head inside the window. *)
Lemma wait_loop (fuel : nat) : forall (s : State),
  now s - start < T + poll + t ->
  (Z.to_nat (T - (now s - start)) < fuel)%nat ->
  exists s',
    (while fuel iter tt s = (Returns (inr tt), s')
     /\ exists i, probes s' = S i /\ (probes s <= i)%nat /\ seen i = true
                  /\ (forall j, (probes s <= j < i)%nat -> seen j = false)
                  /\ exists evs, trace s' = trace s ++ evs ++ [Probe port h t])
    \/ (while fuel iter tt s = (Returns (inl tt), s')
        /\ T <= now s' - start < T + poll + t
        /\ (forall j, (probes s <= j < probes s')%nat -> seen j = false)
        /\ (node = false -> probes s' = probes s)).
Proof.
  induction fuel as [|fuel IH]; intros s Hwin Hfuel; [lia|].
  rewrite while_S.
  destruct (Z.le_gt_cases T (now s - start)) as [Hout|Hin].
  - exists s. right. rewrite wait_iter_exit by assumption.
    repeat split; try lia.
  - destruct (seen (probes s)) eqn:Hseen.
    + exists (after_probe net s port h t). left.
      rewrite wait_iter_hit by assumption. split; [reflexivity|].
      exists (probes s). simpl. repeat split; auto.
      * intros j Hj. lia.
      * exists []. reflexivity.
    + destruct (wait_iter_miss s Hin Hseen) as [s1 [Hit [Hp1 [Hn1 [evs1 Ht1]]]]].
      rewrite Hit.
      assert (Hd : 0 <= (if node then snd (net (probes s) port h t) else 0) <= t).
      { exact (timely (probes s)). }
      destruct (IH s1)
        as [s' [[Hw [i [Hi [Hle [Hs [Hj [evs Ht]]]]]]]|[Hw [Hb [Hj Hq]]]]];
        try lia.
      * exists s'. left. split; [exact Hw|].
        exists i. repeat split; auto.
        -- destruct node; lia.
        -- intros j Hjr.
           destruct (Nat.eq_dec j (probes s)) as [->|Hne]; [exact Hseen|].
           apply Hj. destruct node; lia.
        -- exists (evs1 ++ evs). rewrite Ht, Ht1, <- !app_assoc. reflexivity.
      * exists s'. right. split; [exact Hw|]. split; [exact Hb|]. split.
        -- intros j Hjr.
           destruct (Nat.eq_dec j (probes s)) as [->|Hne]; [exact Hseen|].
           apply Hj. destruct node; lia.
        -- intros Hnode. rewrite (Hq Hnode), Hp1, Hnode. reflexivity.
Qed.

End Watcher.

Lemma reached_true runtime net (i : nat) (port : Z) (h : string) (t : Z)
      (target : TargetState) :
  reached runtime net i port h t target = true ->
  runtime = NodeEnv
  /\ exists inUse, fst (net i port h t) = Resolves inUse
                   /\ state_of inUse = target.
Proof.
  unfold reached. intros H. apply andb_prop in H as [Hn H].
  apply Environment_eqb_eq in Hn. split; [assumption|].
  destruct (fst (net i port h t)) as [b|e]; [|discriminate].
  exists b. split; [reflexivity|]. apply TargetState_eqb_eq. exact H.
Qed.

Lemma waitForPort_loop runtime net (fuel : nat) (port : Z) (target : TargetState)
      (o : WaitOptions) (s : State) :
  valid_port port ->
  waitForPort runtime net fuel port target o s
  = match while fuel
                (wait_iter runtime net port target (wait_host_of o)
                           (wait_timeout_of o) (poll_of o) (deadline_of o) (now s))
                tt s with
    | (Returns (inr _), s') => (Returns tt, s')
    | (Returns (inl _), s') => (Throws (timed_out port target o), s')
    | (Throws e, s') => (Throws e, s')
    | (OutOfFuel, s') => (OutOfFuel, s')
    end.
Proof.
  intros Hv. unfold waitForPort.
  fold (wait_host_of o) (wait_timeout_of o) (poll_of o) (deadline_of o).
  unfold bind at 1. rewrite validatePort_valid by assumption.
  unfold bind, Date_now.
  destruct (while fuel _ tt s) as [[[u|u]|e|] s']; reflexivity.
Qed.

(** C5: [waitForPort] returns only when a probe of its loop has just
    observed the target state; otherwise it throws the timeout error that
    names the port and the target state, and it does so no earlier than
    overallTimeout after the call started and no later than
    overallTimeout + pollInterval + the probe timeout.  Time is the
    model's clock: a probe settles within its timeout and the timer fires
    after exactly pollInterval. *)
Theorem waitForPort_observes_or_times_out_in_window :
  forall runtime net (fuel : nat) (port : Z) (target : TargetState)
         (o : WaitOptions) (s : State),
    valid_port port ->
    0 < poll_of o -> 0 < deadline_of o ->
    (forall i, 0 <= snd (net i port (wait_host_of o) (wait_timeout_of o))
               <= wait_timeout_of o) ->
    (Z.to_nat (deadline_of o) < fuel)%nat ->
    exists s',
      (waitForPort runtime net fuel port target o s = (Returns tt, s')
       /\ runtime = NodeEnv
       /\ exists i inUse,
            probes s' = S i /\ (probes s <= i)%nat
            /\ fst (net i port (wait_host_of o) (wait_timeout_of o))
               = Resolves inUse
            /\ state_of inUse = target
            /\ exists evs,
                 trace s'
                 = trace s ++ evs
                     ++ [Probe port (wait_host_of o) (wait_timeout_of o)])
      \/ (waitForPort runtime net fuel port target o s
          = (Throws (timed_out port target o), s')
          /\ now s + deadline_of o <= now s'
             <= now s + deadline_of o + poll_of o + wait_timeout_of o
          /\ (forall j, (probes s <= j < probes s')%nat ->
                reached runtime net j port (wait_host_of o) (wait_timeout_of o)
                        target = false)).
Proof.
  intros runtime net fuel port target o s Hv Hpoll HT Htimely Hfuel.
  pose proof (Htimely O) as H0.
  assert (Htimely' : forall i,
             0 <= (if Environment_eqb runtime NodeEnv
                   then snd (net i port (wait_host_of o) (wait_timeout_of o))
                   else 0) <= wait_timeout_of o).
  { intros i. pose proof (Htimely i).
    destruct (Environment_eqb runtime NodeEnv); lia. }
  destruct (wait_loop runtime net port target (wait_host_of o) (wait_timeout_of o)
              (poll_of o) (deadline_of o) (now s) Hv Hpoll Htimely' fuel s)
    as [s' [[Hw [i [Hi [Hle [Hs [_ Hevs]]]]]]|[Hw [Hb [Hj _]]]]]; try lia.
  - exists s'. left. rewrite waitForPort_loop by assumption. rewrite Hw.
    split; [reflexivity|].
    apply reached_true in Hs as [Hn [b [Hb Hst]]].
    split; [assumption|]. exists i, b. auto.
  - exists s'. right. rewrite waitForPort_loop by assumption. rewrite Hw.
    split; [reflexivity|]. split; [lia|exact Hj].
Qed.

Lemma waitForPort_observes_or_times_out_in_window_witness :
  let o := mkWaitOptions None None None (Some 3000) in
  exists s',
    (waitForPort NodeEnv all_busy 3001 3000 Available o fresh = (Returns tt, s')
     /\ NodeEnv = NodeEnv
     /\ exists i inUse,
          probes s' = S i /\ (0 <= i)%nat
          /\ fst (all_busy i 3000 "localhost" 5000) = Resolves inUse
          /\ state_of inUse = Available
          /\ exists evs,
               trace s' = [] ++ evs ++ [Probe 3000 "localhost" 5000])
    \/ (waitForPort NodeEnv all_busy 3001 3000 Available o fresh
        = (Throws (PortError (MsgTimeout 3000 Available 3000) (Some 3000)
                             (Some "localhost")), s')
        /\ 0 + 3000 <= now s' <= 0 + 3000 + 1000 + 5000
        /\ (forall j, (0 <= j < probes s')%nat ->
              reached NodeEnv all_busy j 3000 "localhost" 5000 Available = false)).
Proof.
  apply (waitForPort_observes_or_times_out_in_window NodeEnv all_busy 3001 3000
           Available (mkWaitOptions None None None (Some 3000)) fresh).
  - unfold valid_port. lia.
  - reflexivity.
  - reflexivity.
  - intros i. unfold all_busy, wait_timeout_of. simpl. lia.
  - apply Nat.ltb_lt. vm_compute. reflexivity.
Defined.

(** The run behind the witness: three polls, then the timeout at 3006 ms. *)
Example waitForPort_times_out_at_3006 :
  waitForPort NodeEnv all_busy 3001 3000 Available
              (mkWaitOptions None None None (Some 3000)) fresh
  = (Throws (PortError (MsgTimeout 3000 Available 3000) (Some 3000)
                       (Some "localhost")),
     mkState 3006 3
             [Probe 3000 "localhost" 5000; Sleep 1000;
              Probe 3000 "localhost" 5000; Sleep 1000;
              Probe 3000 "localhost" 5000; Sleep 1000]).
Proof. vm_compute. reflexivity. Qed.

(** ** Input checks and the runtime guard *)

(** C2, as the code has it: for every public operation, an out-of-range
    port, or a startPort greater than endPort, is rejected before any
    probe or other effect, with a validation error.  The two single-probe
    operations assert the runtime first, so outside Node.js they raise
    the environment error instead, still before any effect. *)
Theorem malformed_ports_rejected_before_io :
  forall runtime net (c : Call) (s : State),
    malformed c ->
    exists e,
      invoke runtime net c s = (Throws e, s)
      /\ if single_probe c && negb (Environment_eqb runtime NodeEnv)
         then e = EnvironmentError NodeEnv runtime
         else is_validation_error e.
Proof.
  intros runtime net c s Hbad.
  destruct c as [port o|port o|o|ports o|fuel port target o];
    simpl in Hbad; simpl single_probe; cbn [andb invoke].
  - destruct (Environment_eqb runtime NodeEnv) eqn:Hn; simpl negb; cbv iota.
    + apply Environment_eqb_eq in Hn. eexists. unfold bind.
      rewrite isPortInUse_invalid by assumption. split; [reflexivity|exact I].
    + apply Environment_eqb_neq in Hn. eexists. unfold bind.
      rewrite isPortInUse_elsewhere by assumption. split; reflexivity.
  - destruct (Environment_eqb runtime NodeEnv) eqn:Hn; simpl negb; cbv iota.
    + apply Environment_eqb_eq in Hn. eexists. unfold bind.
      rewrite isPortAvailable_invalid by assumption. split; [reflexivity|exact I].
    + apply Environment_eqb_neq in Hn. eexists. unfold bind.
      rewrite isPortAvailable_elsewhere by assumption. split; reflexivity.
  - destruct (findAvailablePort_checked runtime net o s)
      as [[HS [HE Hle]]|[e [Hval He]]]; [exfalso; intuition lia|].
    exists e. unfold bind. rewrite He. split; [reflexivity|exact Hval].
  - destruct (checkMultiplePorts_invalid runtime net o ports s Hbad)
      as [q [_ [_ Hr]]].
    eexists. unfold bind. rewrite Hr. split; [reflexivity|exact I].
  - eexists. unfold bind, waitForPort, bind.
    rewrite validatePort_invalid by assumption. split; [reflexivity|exact I].
Qed.

Lemma malformed_ports_rejected_before_io_witness :
  exists e,
    invoke NodeEnv all_free
           (CallFindAvailablePort
              (mkFindPortOptions None None (Some 100) (Some 50) None)) fresh
    = (Throws e, fresh)
    /\ is_validation_error e.
Proof.
  apply (malformed_ports_rejected_before_io NodeEnv all_free
           (CallFindAvailablePort
              (mkFindPortOptions None None (Some 100) (Some 50) None)) fresh).
  simpl. right. right. reflexivity.
Defined.

(** C2, as stated, fails on the counters: none of them is checked.  A
    negative probe timeout and a zero poll interval go through to the
    probe; a zero maxTries ends in the exhaustion error after 0 attempts
    and a zero overallTimeout in the timeout error, neither of them a
    validation error. *)
Lemma nonpositive_counters_are_not_validated :
  isPortInUse NodeEnv all_busy 3000 (mkPortCheckOptions None (Some (-1))) fresh
  = (Returns true, mkState 2 1 [Probe 3000 "localhost" (-1)])
  /\ waitForPort NodeEnv all_busy 2 3000 InUse
                 (mkWaitOptions None None (Some 0) None) fresh
     = (Returns tt, mkState 2 1 [Probe 3000 "localhost" 5000])
  /\ findAvailablePort NodeEnv all_free
                       (mkFindPortOptions None None None None (Some 0)) fresh
     = (Throws (PortError (MsgNoAvailablePort 3000 65535 0) None
                          (Some "localhost")), fresh)
  /\ waitForPort NodeEnv all_busy 2 3000 InUse
                 (mkWaitOptions None None None (Some 0)) fresh
     = (Throws (PortError (MsgTimeout 3000 InUse 0) (Some 3000)
                          (Some "localhost")), fresh).
Proof. vm_compute. repeat split. Qed.

(** C1, where the code departs from it: outside a Node.js runtime only the
    two single-probe operations fail with the environment error.  The
    scanner, the batch prober and the watcher catch that error like a
    failed probe: the scanner ends in the exhaustion error after all its
    attempts, the batch prober returns a map that marks every port as not
    available, and the watcher polls until its deadline and ends in the
    timeout error.  No probe is issued in any of the five. *)
Theorem environment_error_swallowed_outside_node :
  forall runtime net (s : State),
    runtime <> NodeEnv ->
    (forall port options,
        isPortInUse runtime net port options s
        = (Throws (EnvironmentError NodeEnv runtime), s)
        /\ isPortAvailable runtime net port options s
           = (Throws (EnvironmentError NodeEnv runtime), s))
    /\ (forall o,
          valid_port (start_of o) -> valid_port (end_of o) ->
          start_of o <= end_of o ->
          exists s',
            findAvailablePort runtime net o s
            = (Throws (exhausted o (Z.of_nat (scan_bound o))), s')
            /\ probes s' = probes s)
    /\ (forall ports options,
          Forall valid_port ports ->
          exists s',
            checkMultiplePorts runtime net ports options s
            = (Returns (build_map (map (fun p => (p, false)) ports)), s')
            /\ probes s' = probes s)
    /\ (forall fuel port target o,
          valid_port port -> 0 < poll_of o -> 0 < deadline_of o ->
          0 <= wait_timeout_of o ->
          (Z.to_nat (deadline_of o) < fuel)%nat ->
          exists s',
            waitForPort runtime net fuel port target o s
            = (Throws (timed_out port target o), s')
            /\ probes s' = probes s
            /\ now s + deadline_of o <= now s').
Proof.
  intros runtime net s Hn.
  assert (Hnode : Environment_eqb runtime NodeEnv = false)
    by (apply Environment_eqb_neq; assumption).
  split; [|split; [|split]].
  - intros port options. split.
    + apply isPortInUse_elsewhere. assumption.
    + apply isPortAvailable_elsewhere. assumption.
  - intros o HS HE Hle.
    destruct (find_exhausts runtime net o s HS HE Hle) as [s' [Hr [Hp _]]].
    + intros k _. unfold observed_free. rewrite Hnode. reflexivity.
    + exists s'. rewrite Hnode in Hp. auto.
  - intros ports options Hall.
    destruct (checkMultiplePorts_valid runtime net options ports s Hall)
      as [s' [Hr [_ Hp]]].
    exists s'. rewrite Hnode in Hp. split; [|exact Hp].
    rewrite Hr, observations_all_false by exact Hnode. reflexivity.
  - intros fuel port target o Hv Hpoll HT Ht Hfuel.
    assert (Htimely : forall i,
               0 <= (if Environment_eqb runtime NodeEnv
                     then snd (net i port (wait_host_of o) (wait_timeout_of o))
                     else 0) <= wait_timeout_of o).
    { intros i. rewrite Hnode. lia. }
    destruct (wait_loop runtime net port target (wait_host_of o)
                (wait_timeout_of o) (poll_of o) (deadline_of o) (now s)
                Hv Hpoll Htimely fuel s)
      as [s' [[_ [i [_ [_ [Hs _]]]]]|[Hw [Hb [_ Hq]]]]]; try lia.
    + apply reached_true in Hs as [Hs _]. contradiction.
    + exists s'. rewrite waitForPort_loop by assumption. rewrite Hw.
      split; [reflexivity|]. split; [apply Hq; exact Hnode|lia].
Qed.

Lemma environment_error_swallowed_outside_node_witness :
  (forall port options,
      isPortInUse BrowserEnv all_free port options fresh
      = (Throws (EnvironmentError NodeEnv BrowserEnv), fresh)
      /\ isPortAvailable BrowserEnv all_free port options fresh
         = (Throws (EnvironmentError NodeEnv BrowserEnv), fresh))
  /\ (forall o,
        valid_port (start_of o) -> valid_port (end_of o) ->
        start_of o <= end_of o ->
        exists s',
          findAvailablePort BrowserEnv all_free o fresh
          = (Throws (exhausted o (Z.of_nat (scan_bound o))), s')
          /\ probes s' = probes fresh)
  /\ (forall ports options,
        Forall valid_port ports ->
        exists s',
          checkMultiplePorts BrowserEnv all_free ports options fresh
          = (Returns (build_map (map (fun p => (p, false)) ports)), s')
          /\ probes s' = probes fresh)
  /\ (forall fuel port target o,
        valid_port port -> 0 < poll_of o -> 0 < deadline_of o ->
        0 <= wait_timeout_of o ->
        (Z.to_nat (deadline_of o) < fuel)%nat ->
        exists s',
          waitForPort BrowserEnv all_free fuel port target o fresh
          = (Throws (timed_out port target o), s')
          /\ probes s' = probes fresh
          /\ now fresh + deadline_of o <= now s').
Proof.
  apply (environment_error_swallowed_outside_node BrowserEnv all_free fresh).
  discriminate.
Defined.

(** The three operations in a browser, on a network where every port is
    free: no environment error comes out, and the batch prober does not
    fail at all. *)
Example no_environment_error_in_browser :
  findAvailablePort BrowserEnv all_free
                    (mkFindPortOptions None None (Some 3000) (Some 3002) None) fresh
  = (Throws (PortError (MsgNoAvailablePort 3000 3002 3) None (Some "localhost")),
     mkState 0 0 [Warn 3000 (MsgEnvironment NodeEnv BrowserEnv);
                  Warn 3001 (MsgEnvironment NodeEnv BrowserEnv);
                  Warn 3002 (MsgEnvironment NodeEnv BrowserEnv)])
  /\ checkMultiplePorts BrowserEnv all_free [3000] no_options fresh
     = (Returns [(3000, false)],
        mkState 0 0 [Warn 3000 (MsgEnvironment NodeEnv BrowserEnv)])
  /\ waitForPort BrowserEnv all_free 3 3000 Available
                 (mkWaitOptions None None None (Some 2000)) fresh
     = (Throws (PortError (MsgTimeout 3000 Available 2000) (Some 3000)
                          (Some "localhost")),
        mkState 2000 0 [Warn 3000 (MsgEnvironment NodeEnv BrowserEnv); Sleep 1000;
                        Warn 3000 (MsgEnvironment NodeEnv BrowserEnv); Sleep 1000]).
Proof. vm_compute. repeat split. Qed.

(** ** Further runs *)

(** The text of the exhaustion error carries the range and the count. *)
Example exhaustion_message_text :
  render (MsgNoAvailablePort 3000 3002 1)
  = "No available port found in range 3000-3002 after 1 attempts".
Proof. vm_compute. reflexivity. Qed.

(** A full range of busy ports: three attempts, three probes. *)
Example findAvailablePort_three_busy_ports :
  findAvailablePort NodeEnv all_busy
                    (mkFindPortOptions None None (Some 3000) (Some 3002) None) fresh
  = (Throws (PortError (MsgNoAvailablePort 3000 3002 3) None (Some "localhost")),
     mkState 6 3 [Probe 3000 "localhost" 5000; Probe 3001 "localhost" 5000;
                  Probe 3002 "localhost" 5000]).
Proof. vm_compute. reflexivity. Qed.

(** Two turns of that scan, seen as loop heads. *)
Example scan_reaches_after_two_turns :
  reaches (scan_iter NodeEnv all_busy 3002 100 "localhost" 5000)
          (mkScanVars 3000 0) fresh
          (mkScanVars 3002 2)
          (mkState 4 2 [Probe 3000 "localhost" 5000; Probe 3001 "localhost" 5000]).
Proof.
  eapply reaches_next; [vm_compute; reflexivity|].
  eapply reaches_next; [vm_compute; reflexivity|].
  apply reaches_here.
Qed.

(** A probe that fails does not stop the watcher: it warns, sleeps and
    polls again. *)
Example waitForPort_polls_again_after_probe_error :
  waitForPort NodeEnv flaky_then_busy 5 3000 InUse no_wait_options fresh
  = (Returns tt,
     mkState 1005 2
             [Probe 3000 "localhost" 5000;
              Warn 3000 (MsgCheckFailed 3000 "localhost" (MsgText "ECONNRESET"));
              Sleep 1000;
              Probe 3000 "localhost" 5000]).
Proof. vm_compute. reflexivity. Qed.

(** The scan of the default range on a network where port 3002 makes the
    probe fail: the failure is logged and port 3003 is returned. *)
Example findAvailablePort_skips_failed_probe :
  findAvailablePort NodeEnv (free_above 3002) no_find_options fresh
  = (Returns 3003,
     mkState 4 4
             [Probe 3000 "localhost" 5000; Probe 3001 "localhost" 5000;
              Probe 3002 "localhost" 5000;
              Warn 3002 (MsgCheckFailed 3002 "localhost" (MsgText "EHOSTUNREACH"));
              Probe 3003 "localhost" 5000]).
Proof. vm_compute. reflexivity. Qed.

(** * Further properties of the module *)

(** ** Failure modes of the single-port probes *)

(** X1: [isPortInUse] fails in exactly three ways: outside Node.js with
    the environment error and nothing done; on an invalid port with a
    validation error and nothing done; or, after its one probe was
    rejected, with a [PortError] that carries the port, the host and the
    message of the cause.  The raw error of the probe library never comes
    out. *)
Theorem isPortInUse_failure_modes :
  forall runtime net (port : Z) (options : PortCheckOptions) (s s' : State)
         (e : Error),
    isPortInUse runtime net port options s = (Throws e, s') ->
    let h := default "localhost" (host options) in
    let t := default 5000 (timeout options) in
    (runtime <> NodeEnv /\ e = EnvironmentError NodeEnv runtime /\ s' = s)
    \/ (runtime = NodeEnv /\ ~ valid_port port
        /\ e = PortError (MsgInvalidPort port) (Some port) None /\ s' = s)
    \/ (runtime = NodeEnv /\ valid_port port
        /\ s' = after_probe net s port h t
        /\ exists cause,
             fst (net (probes s) port h t) = Rejects cause
             /\ e = PortError (MsgCheckFailed port h (message_of cause))
                              (Some port) (Some h)).
Proof.
  intros runtime net port options s s' e H h t.
  destruct (Environment_eqb runtime NodeEnv) eqn:Hn.
  - apply Environment_eqb_eq in Hn. right.
    destruct (valid_port_dec port) as [Hv|Hv].
    + right. rewrite isPortInUse_probe in H by assumption. fold h t in H.
      destruct (fst (net (probes s) port h t)) as [b|cause] eqn:Hr;
        [discriminate|].
      injection H as <- <-.
      split; [assumption|]. split; [assumption|]. split; [reflexivity|].
      exists cause. auto.
    + left. rewrite isPortInUse_invalid in H by assumption.
      injection H as <- <-. auto.
  - apply Environment_eqb_neq in Hn. left.
    rewrite isPortInUse_elsewhere in H by assumption.
    injection H as <- <-. auto.
Qed.

Lemma isPortInUse_failure_modes_witness :
  let s' := mkState 3 1 [Probe 3000 "localhost" 5000] in
  let e := PortError (MsgCheckFailed 3000 "localhost" (MsgText "ECONNRESET"))
                     (Some 3000) (Some "localhost") in
  (NodeEnv <> NodeEnv /\ e = EnvironmentError NodeEnv NodeEnv /\ s' = fresh)
  \/ (NodeEnv = NodeEnv /\ ~ valid_port 3000
      /\ e = PortError (MsgInvalidPort 3000) (Some 3000) None /\ s' = fresh)
  \/ (NodeEnv = NodeEnv /\ valid_port 3000
      /\ s' = after_probe flaky_then_busy fresh 3000 "localhost" 5000
      /\ exists cause,
           fst (flaky_then_busy (probes fresh) 3000 "localhost" 5000)
           = Rejects cause
           /\ e = PortError (MsgCheckFailed 3000 "localhost" (message_of cause))
                            (Some 3000) (Some "localhost")).
Proof.
  apply (isPortInUse_failure_modes NodeEnv flaky_then_busy 3000 no_options fresh
           (mkState 3 1 [Probe 3000 "localhost" 5000])
           (PortError (MsgCheckFailed 3000 "localhost" (MsgText "ECONNRESET"))
                      (Some 3000) (Some "localhost"))).
  vm_compute. reflexivity.
Defined.

(** X2: [isPortAvailable] fails exactly when [isPortInUse] does, with the
    same error and in the same state: the negation touches successful
    answers only. *)
Theorem isPortAvailable_fails_as_isPortInUse :
  forall runtime net (port : Z) (options : PortCheckOptions) (s s' : State)
         (e : Error),
    isPortAvailable runtime net port options s = (Throws e, s')
    <-> isPortInUse runtime net port options s = (Throws e, s').
Proof.
  intros runtime net port options s s' e.
  unfold isPortAvailable, bind, ret.
  destruct (isPortInUse runtime net port options s) as [[b|e0|] s0];
    split; intros H; try discriminate; exact H.
Qed.

(** ** Edge cases of the scanner *)

(** X3: the input checks of [findAvailablePort] run in a fixed order: an
    invalid startPort is reported first, then an invalid endPort, then a
    range that starts after its end; the range error carries neither port
    nor host.  Nothing is probed or logged in any of these cases. *)
Theorem findAvailablePort_validation_order :
  forall runtime net (o : FindPortOptions) (s : State),
    (~ valid_port (start_of o) ->
     findAvailablePort runtime net o s
     = (Throws (PortError (MsgInvalidPort (start_of o)) (Some (start_of o)) None),
        s))
    /\ (valid_port (start_of o) -> ~ valid_port (end_of o) ->
        findAvailablePort runtime net o s
        = (Throws (PortError (MsgInvalidPort (end_of o)) (Some (end_of o)) None),
           s))
    /\ (valid_port (start_of o) -> valid_port (end_of o) ->
        start_of o > end_of o ->
        findAvailablePort runtime net o s
        = (Throws (PortError (MsgStartAfterEnd (start_of o) (end_of o)) None None),
           s)).
Proof.
  intros runtime net o s. unfold findAvailablePort.
  fold (start_of o) (end_of o). split; [|split].
  - intros HS. unfold bind at 1. rewrite validatePort_invalid by assumption.
    reflexivity.
  - intros HS HE. unfold bind at 1. rewrite validatePort_valid by assumption.
    unfold bind at 1. rewrite validatePort_invalid by assumption. reflexivity.
  - intros HS HE Hgt. unfold bind at 1. rewrite validatePort_valid by assumption.
    unfold bind at 1. rewrite validatePort_valid by assumption.
    destruct (Z.gtb_spec (start_of o) (end_of o)); [reflexivity|lia].
Qed.

(** X4: with a maxTries of zero or less, a scan over a well-formed range
    makes no attempt at all: it ends at once in the exhaustion error that
    reports 0 attempts, and nothing is probed or logged. *)
Theorem findAvailablePort_without_tries :
  forall runtime net (o : FindPortOptions) (s : State),
    valid_port (start_of o) -> valid_port (end_of o) ->
    start_of o <= end_of o ->
    tries_of o <= 0 ->
    findAvailablePort runtime net o s = (Throws (exhausted o 0), s).
Proof.
  intros runtime net o s HS HE Hle Htries.
  rewrite findAvailablePort_scan by assumption.
  unfold scan_fuel.
  replace (Z.to_nat (end_of o - start_of o) + 2)%nat
    with (S (Z.to_nat (end_of o - start_of o) + 1)) by lia.
  rewrite while_S, scan_iter_exit.
  - reflexivity.
  - cbn [currentPort attempts]. apply andb_false_iff. right.
    apply Z.ltb_ge. lia.
Qed.

Lemma findAvailablePort_without_tries_witness :
  findAvailablePort NodeEnv all_free
                    (mkFindPortOptions None None (Some 8000) (Some 8100) (Some (-3)))
                    fresh
  = (Throws (PortError (MsgNoAvailablePort 8000 8100 0) None (Some "localhost")),
     fresh).
Proof.
  apply (findAvailablePort_without_tries NodeEnv all_free
           (mkFindPortOptions None None (Some 8000) (Some 8100) (Some (-3))) fresh);
    unfold valid_port, start_of, end_of, tries_of; simpl; lia.
Defined.

Lemma warned_app (a b : list Event) : warned (a ++ b) = warned a ++ warned b.
Proof.
  induction a as [|[p h t|p m|ms] a IH]; simpl; rewrite ?IH; reflexivity.
Qed.

(** One turn of the scan in a Node.js runtime that does not find its port
    free: one probe, and one warning exactly when the probe was rejected. *)
Lemma scan_iter_miss_node net (E maxTries : Z) (h : string) (t : Z)
      (v : ScanVars) (s : State) :
  valid_port (currentPort v) ->
  (currentPort v <=? E) && (attempts v <? maxTries) = true ->
  observed_free NodeEnv net (probes s) (currentPort v) h t = false ->
  exists s1,
    scan_iter NodeEnv net E maxTries h t v s
    = (Returns (Next (mkScanVars (currentPort v + 1) (attempts v + 1))), s1)
    /\ probes s1 = S (probes s)
    /\ warned (trace s1)
       = warned (trace s)
           ++ (if rejected net (probes s) (currentPort v) h t
               then [currentPort v] else []).
Proof.
  intros Hv Hc Hf. unfold scan_iter. rewrite Hc.
  unfold observed_free in Hf. simpl in Hf. unfold rejected.
  unfold bind at 1. unfold try_catch, bind at 1.
  rewrite isPortAvailable_probe by (reflexivity || assumption). simpl default.
  destruct (fst (net (probes s) (currentPort v) h t)) as [[|]|e];
    try discriminate; run; eexists; (split; [reflexivity|]); simpl;
    rewrite ?warned_app; simpl; rewrite ?app_nil_r; auto.
Qed.

Lemma scan_skip_node net (E maxTries : Z) (h : string) (t : Z) (n : nat) :
  forall (v : ScanVars) (s : State) (fuel : nat),
    1 <= currentPort v -> E <= 65535 ->
    ((0 < n)%nat -> Z.of_nat n <= E - currentPort v + 1) ->
    ((0 < n)%nat -> Z.of_nat n <= maxTries - attempts v) ->
    (forall k, (k < n)%nat ->
       observed_free NodeEnv net (probes s + k) (currentPort v + Z.of_nat k) h t
       = false) ->
    exists s',
      while (n + fuel) (scan_iter NodeEnv net E maxTries h t) v s
      = while fuel (scan_iter NodeEnv net E maxTries h t)
              (mkScanVars (currentPort v + Z.of_nat n) (attempts v + Z.of_nat n)) s'
      /\ probes s' = (probes s + n)%nat
      /\ warned (trace s')
         = warned (trace s) ++ rejected_from net (probes s) (currentPort v) n h t.
Proof.
  induction n as [|n IH]; intros v s fuel H1 HE Hn Hm Hfree.
  - exists s. destruct v as [cp at']. simpl.
    rewrite !Z.add_0_r, Nat.add_0_r, app_nil_r. auto.
  - specialize (Hn ltac:(lia)). specialize (Hm ltac:(lia)).
    assert (Hc : (currentPort v <=? E) && (attempts v <? maxTries) = true).
    { apply andb_true_intro. split; [apply Z.leb_le | apply Z.ltb_lt]; lia. }
    assert (Hv : valid_port (currentPort v)) by (unfold valid_port; lia).
    destruct (scan_iter_miss_node net E maxTries h t v s Hv Hc)
      as [s1 [Hit [Hp1 Ht1]]].
    { specialize (Hfree O ltac:(lia)).
      rewrite Nat.add_0_r, Z.add_0_r in Hfree. exact Hfree. }
    destruct (IH (mkScanVars (currentPort v + 1) (attempts v + 1)) s1 fuel)
      as [s' [Hw [Hp' Ht']]];
      [cbn [currentPort attempts]; lia | assumption
      | cbn [currentPort attempts]; lia | cbn [currentPort attempts]; lia
      | | ].
    { intros k Hk. cbn [currentPort]. rewrite Hp1.
      specialize (Hfree (S k) ltac:(lia)).
      replace (S (probes s) + k)%nat with (probes s + S k)%nat by lia.
      replace (currentPort v + 1 + Z.of_nat k)
        with (currentPort v + Z.of_nat (S k)) by lia.
      exact Hfree. }
    cbn [currentPort attempts] in Hw, Ht'.
    exists s'. split; [|split].
    + change (S n + fuel)%nat with (S (n + fuel)).
      rewrite while_S, Hit, Hw.
      replace (currentPort v + Z.of_nat (S n))
        with (currentPort v + 1 + Z.of_nat n) by lia.
      replace (attempts v + Z.of_nat (S n))
        with (attempts v + 1 + Z.of_nat n) by lia.
      reflexivity.
    + rewrite Hp', Hp1. lia.
    + rewrite Ht', Ht1, Hp1. cbn [rejected_from].
      rewrite <- !app_assoc. reflexivity.
Qed.

(** X5: in a Node.js runtime a scan logs one warning for each probe that
    was rejected and none for the others: the ports named by the new
    warnings are, in order, the probed ports whose probe was rejected. *)
Theorem findAvailablePort_warns_once_per_rejected_probe :
  forall net (o : FindPortOptions) (s : State),
    valid_port (start_of o) -> valid_port (end_of o) ->
    start_of o <= end_of o ->
    let s' := snd (findAvailablePort NodeEnv net o s) in
    warned (trace s')
    = warned (trace s)
        ++ rejected_from net (probes s) (start_of o) (probes s' - probes s)
                         (host_of o) (timeout_of o).
Proof.
  intros net o s HS HE Hle. cbv zeta.
  rewrite findAvailablePort_scan by assumption.
  pose proof HS as HS'. pose proof HE as HE'. unfold valid_port in HS', HE'.
  destruct (first_success
              (fun k => observed_free NodeEnv net (probes s + k)
                          (start_of o + Z.of_nat k) (host_of o) (timeout_of o))
              (scan_bound o)) as [Hnone|[k [Hk [Hf Hj]]]].
  - assert (Hb1 : Z.of_nat (scan_bound o) <= end_of o - start_of o + 1)
      by (unfold scan_bound; lia).
    destruct (scan_fuel_split o (scan_bound o) Hle Hb1) as [m Hm].
    destruct (scan_skip_node net (end_of o) (tries_of o) (host_of o)
                (timeout_of o) (scan_bound o) (mkScanVars (start_of o) 0) s (S m))
      as [s1 [Hw [Hp Ht]]]; cbn [currentPort attempts];
      try (unfold scan_bound; lia); [exact Hnone|].
    cbn [currentPort attempts] in Hw, Ht.
    rewrite Hm, Hw, while_S, scan_iter_exit.
    + cbn [snd]. rewrite Ht, Hp.
      replace (probes s + scan_bound o - probes s)%nat with (scan_bound o) by lia.
      reflexivity.
    + cbn [currentPort attempts]. apply andb_false_iff.
      destruct (Z.le_gt_cases (tries_of o) (end_of o - start_of o + 1)).
      * right. apply Z.ltb_ge. unfold scan_bound. lia.
      * left. apply Z.leb_gt. unfold scan_bound. lia.
  - assert (Hb : Z.of_nat (scan_bound o)
                 = Z.min (end_of o - start_of o + 1) (tries_of o))
      by (unfold scan_bound in *; lia).
    assert (Hb1 : Z.of_nat k <= end_of o - start_of o + 1) by lia.
    destruct (scan_fuel_split o k Hle Hb1) as [m Hm].
    destruct (scan_skip_node net (end_of o) (tries_of o) (host_of o)
                (timeout_of o) k (mkScanVars (start_of o) 0) s (S m))
      as [s1 [Hw [Hp Ht]]]; cbn [currentPort attempts]; try lia;
      [exact Hj|].
    cbn [currentPort attempts] in Hw, Ht.
    rewrite Hm, Hw, while_S, scan_iter_hit.
    + cbn [snd]. unfold after_probe. cbn [trace probes].
      rewrite warned_app, Ht, Hp. cbn [warned]. rewrite app_nil_r.
      replace (S (probes s + k) - probes s)%nat with (S k) by lia.
      clear Hw Ht Hp s1 Hm m.
      assert (Hlast : rejected net (probes s + k) (start_of o + Z.of_nat k)
                               (host_of o) (timeout_of o) = false).
      { unfold observed_free in Hf. simpl in Hf. unfold rejected.
        destruct (fst (net (probes s + k)%nat (start_of o + Z.of_nat k)
                           (host_of o) (timeout_of o))); [reflexivity|discriminate]. }
      f_equal. revert Hlast. clear.
      generalize (probes s) as i. generalize (start_of o) as p.
      induction k as [|k IH]; intros p i Hlast.
      * simpl. rewrite Nat.add_0_r, Z.add_0_r in Hlast. rewrite Hlast. reflexivity.
      * cbn [rejected_from]. f_equal.
        apply IH.
        replace (S i + k)%nat with (i + S k)%nat by lia.
        replace (p + 1 + Z.of_nat k) with (p + Z.of_nat (S k)) by lia.
        exact Hlast.
    + cbn [currentPort]. unfold valid_port. lia.
    + cbn [currentPort attempts]. apply andb_true_intro.
      split; [apply Z.leb_le | apply Z.ltb_lt]; lia.
    + cbn [currentPort]. rewrite Hp. exact Hf.
Qed.

Lemma findAvailablePort_warns_once_per_rejected_probe_witness :
  let s' := snd (findAvailablePort NodeEnv (free_above 3002) no_find_options fresh) in
  warned (trace s')
  = warned (trace fresh)
      ++ rejected_from (free_above 3002) (probes fresh) 3000
                       (probes s' - probes fresh) "localhost" 5000.
Proof.
  apply (findAvailablePort_warns_once_per_rejected_probe (free_above 3002)
           no_find_options fresh);
    unfold valid_port, start_of, end_of; simpl; lia.
Defined.

(** ** Order of the batch result *)

Lemma Map_keys_set_old (m : PortMap) (k : Z) (v : bool) :
  In k (Map_keys m) -> Map_keys (Map_set m k v) = Map_keys m.
Proof.
  unfold Map_keys. induction m as [|[k0 v0] m IH]; simpl; intros H.
  - contradiction.
  - destruct (Z.eqb_spec k0 k) as [->|Hk]; simpl; [reflexivity|].
    f_equal. apply IH. destruct H; [contradiction|assumption].
Qed.

Lemma Map_keys_set_new (m : PortMap) (k : Z) (v : bool) :
  ~ In k (Map_keys m) -> Map_keys (Map_set m k v) = Map_keys m ++ [k].
Proof.
  unfold Map_keys. induction m as [|[k0 v0] m IH]; simpl; intros H.
  - reflexivity.
  - destruct (Z.eqb_spec k0 k) as [->|Hk]; simpl; [tauto|].
    f_equal. apply IH. tauto.
Qed.

Lemma first_occurrences_snoc (l : list Z) (k : Z) :
  first_occurrences (l ++ [k])
  = if in_dec Z.eq_dec k l then first_occurrences l
    else first_occurrences l ++ [k].
Proof.
  unfold first_occurrences. rewrite rev_unit. simpl.
  destruct (in_dec Z.eq_dec k (rev l)) as [Hin|Hin];
    destruct (in_dec Z.eq_dec k l) as [Hin'|Hin']; try reflexivity.
  - apply in_rev in Hin. contradiction.
  - apply in_rev in Hin'. contradiction.
Qed.

Lemma build_map_key_order (l : list (Z * bool)) :
  Map_keys (build_map l) = first_occurrences (map fst l).
Proof.
  induction l as [|[k v] l IH] using rev_ind.
  - reflexivity.
  - rewrite build_map_snoc, map_app. simpl map.
    rewrite first_occurrences_snoc.
    destruct (build_map_keys l) as [_ Hin].
    destruct (in_dec Z.eq_dec k (map fst l)) as [Hk|Hk].
    + rewrite Map_keys_set_old, IH; [reflexivity|]. apply Hin. exact Hk.
    + rewrite Map_keys_set_new, IH; [reflexivity|].
      intros H. apply Hk. apply Hin. exact H.
Qed.

(** X6: the map returned by [checkMultiplePorts] lists the distinct input
    ports in the order of their first occurrence in the input, whatever
    the probes answered (a JavaScript [Map] iterates in insertion order,
    and setting a key again keeps its place). *)
Theorem checkMultiplePorts_keys_in_input_order :
  forall runtime net (ports : list Z) (options : PortCheckOptions) (s : State),
    Forall valid_port ports ->
    exists m s',
      checkMultiplePorts runtime net ports options s = (Returns m, s')
      /\ Map_keys m = first_occurrences ports.
Proof.
  intros runtime net ports options s Hall.
  destruct (checkMultiplePorts_valid runtime net options ports s Hall)
    as [s' [Hr _]].
  eexists. exists s'. split; [exact Hr|].
  rewrite build_map_key_order, observations_ports. reflexivity.
Qed.

Lemma checkMultiplePorts_keys_in_input_order_witness :
  exists m s',
    checkMultiplePorts NodeEnv all_busy [4000; 3000; 4000; 5000; 3000] no_options
                       fresh
    = (Returns m, s')
    /\ Map_keys m = first_occurrences [4000; 3000; 4000; 5000; 3000].
Proof.
  apply (checkMultiplePorts_keys_in_input_order NodeEnv all_busy
           [4000; 3000; 4000; 5000; 3000] no_options fresh).
  repeat constructor; unfold valid_port; lia.
Defined.

Example first_occurrences_keeps_first :
  first_occurrences [4000; 3000; 4000; 5000; 3000] = [4000; 3000; 5000].
Proof. vm_compute. reflexivity. Qed.

(** ** Edge cases of the watcher *)

(** X7: with an overallTimeout of zero or less the watcher never polls:
    for a valid port it throws the timeout error at once, and nothing is
    probed, logged or slept. *)
Theorem waitForPort_without_time :
  forall runtime net (fuel : nat) (port : Z) (target : TargetState)
         (o : WaitOptions) (s : State),
    valid_port port ->
    deadline_of o <= 0 ->
    waitForPort runtime net (S fuel) port target o s
    = (Throws (timed_out port target o), s).
Proof.
  intros runtime net fuel port target o s Hv HT.
  rewrite waitForPort_loop by assumption.
  rewrite while_S, wait_iter_exit by lia. reflexivity.
Qed.

Lemma waitForPort_without_time_witness :
  waitForPort NodeEnv all_free 1 3000 Available
              (mkWaitOptions None None None (Some (-1))) fresh
  = (Throws (PortError (MsgTimeout 3000 Available (-1)) (Some 3000)
                       (Some "localhost")), fresh).
Proof.
  apply (waitForPort_without_time NodeEnv all_free 0 3000 Available
           (mkWaitOptions None None None (Some (-1))) fresh).
  - unfold valid_port. lia.
  - unfold deadline_of. simpl. lia.
Defined.

(** X8: when the first probe of the watcher already shows the port in the
    target state, the watcher returns after that single probe: the only
    effect is the probe, and no timer is started. *)
Theorem waitForPort_returns_on_first_observation :
  forall runtime net (fuel : nat) (port : Z) (target : TargetState)
         (o : WaitOptions) (s : State),
    valid_port port ->
    0 < deadline_of o ->
    reached runtime net (probes s) port (wait_host_of o) (wait_timeout_of o)
            target = true ->
    waitForPort runtime net (S fuel) port target o s
    = (Returns tt,
       after_probe net s port (wait_host_of o) (wait_timeout_of o)).
Proof.
  intros runtime net fuel port target o s Hv HT Hseen.
  rewrite waitForPort_loop by assumption.
  rewrite while_S, wait_iter_hit; [reflexivity|assumption|lia|assumption].
Qed.

Lemma waitForPort_returns_on_first_observation_witness :
  waitForPort NodeEnv all_free 1 3000 Available no_wait_options fresh
  = (Returns tt, after_probe all_free fresh 3000 "localhost" 5000).
Proof.
  apply (waitForPort_returns_on_first_observation NodeEnv all_free 0 3000
           Available no_wait_options fresh).
  - unfold valid_port. lia.
  - reflexivity.
  - reflexivity.
Defined.




(** The run behind the witness: four probes in 2000 ms at 500 ms. *)
Example waitForPort_four_probes_in_2000 :
  probes (snd (waitForPort NodeEnv all_busy 10 3000 Available
                 (mkWaitOptions None None (Some 500) (Some 2000)) fresh))
  = 4%nat.
Proof. vm_compute. reflexivity. Qed.

(** * The jwt module *)

Lemma guard_in_node (s : State) :
  try_catch (assertNodeEnvironment NodeEnv ;;; ret (@None (JwtResult Decoded)))
            (fun error => ret (Some (JwtErrorResult (environment_failure error)))) s
  = (Returns None, s).
Proof. reflexivity. Qed.

(** X10: outside Node.js [jwtVerify] and [jwtSign] do not throw: whatever
    the input and the library, they resolve to an error result with code
    [environment_error] that keeps the environment error as its original
    error, and nothing else happens. *)
Theorem jwt_reports_environment_error_as_result :
  forall runtime verify sign (vi : JwtVerifyInput) (si : JwtSignInput)
         (s : State),
    runtime <> NodeEnv ->
    jwtVerify runtime verify vi s
    = (Returns (JwtErrorResult
                  (mkJwtError environment_error
                     "JWT operations are only supported in Node.js environment"
                     (Some (EnvironmentError NodeEnv runtime)))), s)
    /\ jwtSign runtime sign si s
       = (Returns (JwtErrorResult
                     (mkJwtError environment_error
                        "JWT operations are only supported in Node.js environment"
                        (Some (EnvironmentError NodeEnv runtime)))), s).
Proof.
  intros runtime verify sign vi si s Hn.
  unfold jwtVerify, jwtSign, bind, try_catch.
  rewrite (assertNodeEnvironment_elsewhere runtime s Hn). split; reflexivity.
Qed.

Lemma jwt_reports_environment_error_as_result_witness :
  jwtVerify BrowserEnv sample_verify
            (mkJwtVerifyInput (JsString "lasting") (JsString "s3cret") None) fresh
  = (Returns (JwtErrorResult
                (mkJwtError environment_error
                   "JWT operations are only supported in Node.js environment"
                   (Some (EnvironmentError NodeEnv BrowserEnv)))), fresh)
  /\ jwtSign BrowserEnv sample_sign
             (mkJwtSignInput (JsObject []) (JsString "s3cret") None) fresh
     = (Returns (JwtErrorResult
                   (mkJwtError environment_error
                      "JWT operations are only supported in Node.js environment"
                      (Some (EnvironmentError NodeEnv BrowserEnv)))), fresh).
Proof.
  apply (jwt_reports_environment_error_as_result BrowserEnv sample_verify
           sample_sign). discriminate.
Defined.

(** X11: in Node.js [jwtVerify] checks the token before the secret and
    both before it calls the library: a token that is not a non-empty
    string gives [invalid_token] whatever the secret is, and a good token
    with a missing secret gives [invalid_secret]; the library has no say
    in either answer. *)
Theorem jwtVerify_checks_token_then_secret :
  forall verify (input : JwtVerifyInput) (s : State),
    (truthy (verify_token input) && is_string (verify_token input) = false ->
     jwtVerify NodeEnv verify input s
     = (Returns (JwtErrorResult
                   (mkJwtError invalid_token
                      "Invalid token: Token must be a non-empty string" None)),
        s))
    /\ (truthy (verify_token input) && is_string (verify_token input) = true ->
        truthy (verify_secret input) = false ->
        jwtVerify NodeEnv verify input s
        = (Returns (JwtErrorResult
                      (mkJwtError invalid_secret
                         "Invalid secret: Secret is required for token verification"
                         None)), s)).
Proof.
  intros verify input s. unfold jwtVerify, bind. rewrite guard_in_node.
  unfold ret. split.
  - intros H. apply andb_false_iff in H as [H|H]; rewrite H; simpl;
      [|rewrite orb_true_r]; reflexivity.
  - intros H Hs. apply andb_prop in H as [H1 H2]. rewrite H1, H2, Hs.
    reflexivity.
Qed.

(** X12: [jwtVerify] reports success only for what the library verified:
    the result is a success carrying [d] exactly when the runtime is
    Node.js, the token is a non-empty string, the secret is present, and
    the library's callback delivered [d], which is neither empty nor a
    string. *)
Theorem jwtVerify_success_iff :
  forall runtime verify (input : JwtVerifyInput) (s s' : State) (d : Decoded),
    jwtVerify runtime verify input s = (Returns (JwtSuccessResult d), s')
    <-> (runtime = NodeEnv /\ s' = s
         /\ truthy (verify_token input) = true
         /\ is_string (verify_token input) = true
         /\ truthy (verify_secret input) = true
         /\ verify (verify_token input) (verify_secret input)
                   (default [] (verify_options input)) = CallbackValue d
         /\ decoded_truthy d = true /\ decoded_is_string d = false).
Proof.
  intros runtime verify input s s' d. unfold jwtVerify, bind, try_catch.
  destruct (Environment_eqb runtime NodeEnv) eqn:Hn.
  - apply Environment_eqb_eq in Hn.
    rewrite (assertNodeEnvironment_node runtime s Hn). unfold ret.
    destruct (truthy (verify_token input)); simpl;
      [|split; [discriminate|intros H; decompose [and] H; discriminate]].
    destruct (is_string (verify_token input)); simpl;
      [|split; [discriminate|intros H; decompose [and] H; discriminate]].
    destruct (truthy (verify_secret input)); simpl;
      [|split; [discriminate|intros H; decompose [and] H; discriminate]].
    destruct (verify _ _ _) as [m|d0];
      [split; [discriminate|intros H; decompose [and] H; discriminate]|].
    destruct (decoded_truthy d0) eqn:Ht; simpl;
      [|split; [discriminate
               |intros H; decompose [and] H;
                match goal with E : CallbackValue _ = CallbackValue _ |- _ =>
                  injection E as -> end; congruence]].
    destruct (decoded_is_string d0) eqn:Hs; simpl.
    + split; [discriminate|]. intros H; decompose [and] H.
      match goal with E : CallbackValue _ = CallbackValue _ |- _ =>
        injection E as -> end. congruence.
    + split.
      * intros H. injection H as -> ->. repeat split; auto.
      * intros H; decompose [and] H.
        match goal with E : CallbackValue _ = CallbackValue _ |- _ =>
          injection E as -> end. subst. reflexivity.
  - apply Environment_eqb_neq in Hn.
    rewrite (assertNodeEnvironment_elsewhere runtime s Hn). unfold ret.
    split; [discriminate|]. intros H; decompose [and] H. contradiction.
Qed.

Example jwtVerify_accepts_known_token :
  jwtVerify NodeEnv sample_verify
            (mkJwtVerifyInput (JsString "lasting") (JsString "s3cret") None) fresh
  = (Returns (JwtSuccessResult (DecodedPayload (mkJwtPayload (Some 2000) []))),
     fresh).
Proof. reflexivity. Qed.

(** X13: [jwtSign] succeeds with token [t] exactly when, in Node.js, the
    payload is an object, the secret is present, and the library, asked
    with the effective expiry and the other options untouched, delivered
    the non-empty token [t].  The effective expiry is [expiresIn] when it
    is set and truthy, else [defaultExpiresIn] when that is set and
    truthy: an [expiresIn] of [0] or [""] is replaced by the default. *)
Theorem jwtSign_success_iff :
  forall runtime sign (input : JwtSignInput) (s s' : State) (t : string),
    let options := default (mkJwtSignOptions None None []) (sign_options input) in
    jwtSign runtime sign input s = (Returns (JwtSuccessResult t), s')
    <-> (runtime = NodeEnv /\ s' = s
         /\ truthy (sign_payload input) = true
         /\ is_object (sign_payload input) = true
         /\ truthy (sign_secret input) = true
         /\ sign (sign_payload input) (sign_secret input)
                 (mkSignOptions (effective_expiresIn options)
                                (other_options options))
            = CallbackValue (Some t)
         /\ t <> "").
Proof.
  intros runtime sign input s s' t options.
  assert (Hfinal : finalOptions options
                   = mkSignOptions (effective_expiresIn options)
                                   (other_options options)).
  { unfold finalOptions, effective_expiresIn. simpl.
    destruct (truthy_property (expiresIn options));
      destruct (truthy_property (defaultExpiresIn options)); reflexivity. }
  unfold jwtSign, bind, try_catch. fold options. rewrite Hfinal.
  destruct (Environment_eqb runtime NodeEnv) eqn:Hn.
  - apply Environment_eqb_eq in Hn.
    rewrite (assertNodeEnvironment_node runtime s Hn). unfold ret.
    destruct (truthy (sign_payload input)); simpl;
      [|split; [discriminate|intros H; decompose [and] H; discriminate]].
    destruct (is_object (sign_payload input)); simpl;
      [|split; [discriminate|intros H; decompose [and] H; discriminate]].
    destruct (truthy (sign_secret input)); simpl;
      [|split; [discriminate|intros H; decompose [and] H; discriminate]].
    destruct (sign _ _ _) as [m|[t0|]];
      try (split; [discriminate|intros H; decompose [and] H; discriminate]).
    destruct (String.eqb_spec t0 "") as [He|He].
    + split; [discriminate|]. intros H; decompose [and] H.
      match goal with E : CallbackValue _ = CallbackValue _ |- _ =>
        injection E as -> end. contradiction.
    + split.
      * intros H. injection H as -> ->. repeat split; auto.
      * intros H; decompose [and] H.
        match goal with E : CallbackValue _ = CallbackValue _ |- _ =>
          injection E as -> end. subst. reflexivity.
  - apply Environment_eqb_neq in Hn.
    rewrite (assertNodeEnvironment_elsewhere runtime s Hn). unfold ret.
    split; [discriminate|]. intros H; decompose [and] H. contradiction.
Qed.

(** An explicit [expiresIn] of 0 loses against the default. *)
Example jwtSign_zero_expiry_takes_default :
  jwtSign NodeEnv sample_sign
          (mkJwtSignInput (JsObject []) (JsString "s3cret")
             (Some (mkJwtSignOptions (Some (JsNumber 0)) (Some (JsString "24h")) [])))
          fresh
  = (Returns (JwtSuccessResult "token.exp=24h"), fresh).
Proof. reflexivity. Qed.

(** X14: [jwtDecode] succeeds with [d] exactly when the token is a
    non-empty string and the library returned the non-empty [d] for it;
    every failure carries the code [invalid_token] (the token was not a
    non-empty string) or [decode_failed] (the library returned nothing or
    threw), so an exception of the library never reaches the caller. *)
Theorem jwtDecode_success_and_failure_codes :
  forall decode (input : JwtDecodeInput),
    let token := decode_token input in
    let options := default (mkDecodeOptions None) (decode_options input) in
    (forall d,
        jwtDecode decode input = JwtSuccessResult d
        <-> (truthy token = true /\ is_string token = true
             /\ decode token options = Returned d /\ decoded_truthy d = true))
    /\ (forall e,
          jwtDecode decode input = JwtErrorResult e ->
          (code e = invalid_token
           /\ truthy token && is_string token = false)
          \/ (code e = decode_failed
              /\ truthy token && is_string token = true)).
Proof.
  intros decode input token options. unfold jwtDecode. fold token options.
  destruct (truthy token); destruct (is_string token); simpl;
    try (split; [intros d; split; [discriminate
                                  |intros H; decompose [and] H; discriminate]
                |intros e H; injection H as <-; left; auto]).
  destruct (decode token options) as [d0|err].
  - destruct (decoded_truthy d0) eqn:Ht; simpl.
    + split.
      * intros d. split.
        -- intros H. injection H as ->. auto.
        -- intros H; decompose [and] H.
           match goal with E : Returned _ = Returned _ |- _ =>
             injection E as -> end. reflexivity.
      * intros e H. discriminate.
    + split.
      * intros d. split; [discriminate|]. intros H; decompose [and] H.
        match goal with E : Returned _ = Returned _ |- _ =>
          injection E as -> end. congruence.
      * intros e H. injection H as <-. right. auto.
  - split.
    + intros d. split; [discriminate|]. intros H; decompose [and] H. discriminate.
    + intros e H. injection H as <-. right. auto.
Qed.

Example jwtDecode_catches_library_exception :
  jwtDecode sample_decode (mkJwtDecodeInput (JsString "broken") None)
  = JwtErrorResult
      (mkJwtError decode_failed "Failed to decode token: Unexpected token"
                  (Some (ForeignError "Unexpected token"))).
Proof. reflexivity. Qed.

(** The two expiration helpers side by side, in the three situations a
    token can be in. *)
Lemma expiry_cases decode (input : JwtExpirationInput) (s : State) :
  (exists e,
      jwtDecode decode (mkJwtDecodeInput (token input) None) = JwtErrorResult e
      /\ jwtIsExpired decode input s = (Returns (JwtErrorResult e), s)
      /\ jwtTimeUntilExpiry decode input s = (Returns (JwtErrorResult e), s))
  \/ (exists d,
        jwtDecode decode (mkJwtDecodeInput (token input) None) = JwtSuccessResult d
        /\ (decoded_exp d = None \/ decoded_exp d = Some 0)
        /\ jwtIsExpired decode input s = (Returns (JwtErrorResult no_expiration), s)
        /\ jwtTimeUntilExpiry decode input s
           = (Returns (JwtErrorResult no_expiration), s))
  \/ (exists d x,
        jwtDecode decode (mkJwtDecodeInput (token input) None) = JwtSuccessResult d
        /\ decoded_exp d = Some x /\ x <> 0
        /\ jwtIsExpired decode input s
           = (Returns (JwtSuccessResult (x <? now s / 1000)), s)
        /\ jwtTimeUntilExpiry decode input s
           = (Returns (JwtSuccessResult (Z.max 0 (x - now s / 1000))), s)).
Proof.
  unfold jwtIsExpired, jwtTimeUntilExpiry.
  destruct (jwtDecode decode (mkJwtDecodeInput (token input) None)) as [d|e].
  - right. destruct (decoded_exp d) as [x|] eqn:Hx.
    + destruct (Z.eqb_spec x 0) as [->|Hne].
      * left. exists d. simpl. auto.
      * right. exists d, x. unfold number_truthy.
        destruct (Z.eqb_spec x 0) as [|_]; [contradiction|]. simpl.
        unfold currentTime_now, bind, Date_now, ret.
        repeat split; auto.
        destruct (Z.gtb_spec (x - now s / 1000) 0);
          do 3 f_equal; lia.
    + left. exists d. simpl. auto.
  - left. exists e. auto.
Qed.

(** X15: [jwtIsExpired] and [jwtTimeUntilExpiry] fail together: for the
    same token, library and clock, one returns an error result exactly
    when the other does, and then it is the same error. *)
Theorem expiry_helpers_fail_together :
  forall decode (input : JwtExpirationInput) (s : State) (e : JwtError),
    jwtIsExpired decode input s = (Returns (JwtErrorResult e), s)
    <-> jwtTimeUntilExpiry decode input s = (Returns (JwtErrorResult e), s).
Proof.
  intros decode input s e.
  destruct (expiry_cases decode input s)
    as [[e0 [_ [H1 H2]]]|[[d [_ [_ [H1 H2]]]]|[d [x [_ [_ [_ [H1 H2]]]]]]]];
    rewrite H1, H2; split; intros H; try discriminate;
    injection H as <-; reflexivity.
Qed.

(** X16: for the same token, library and clock, the answers of the two
    helpers fit together: the time left is never negative; an expired
    token has no time left; a token with time left is not expired.  The
    converse of the second fails in the very second of expiry only, when
    the token is not yet reported expired but has 0 seconds left. *)
Theorem expiry_helpers_agree :
  forall decode (input : JwtExpirationInput) (s s1 s2 : State)
         (expired : bool) (left : Z),
    jwtIsExpired decode input s = (Returns (JwtSuccessResult expired), s1) ->
    jwtTimeUntilExpiry decode input s = (Returns (JwtSuccessResult left), s2) ->
    0 <= left
    /\ (expired = true -> left = 0)
    /\ (0 < left -> expired = false)
    /\ (expired = false /\ left = 0 <->
        exists d, jwtDecode decode (mkJwtDecodeInput (token input) None)
                  = JwtSuccessResult d
                  /\ decoded_exp d = Some (now s / 1000)).
Proof.
  intros decode input s s1 s2 expired left H1 H2.
  destruct (expiry_cases decode input s)
    as [[e0 [_ [E1 E2]]]|[[d [_ [_ [E1 E2]]]]|[d [x [Hd [Hx [Hne [E1 E2]]]]]]]];
    rewrite E1 in H1; rewrite E2 in H2; try discriminate.
  injection H1 as <- _. injection H2 as <- _.
  assert (Hsame : forall d', jwtDecode decode (mkJwtDecodeInput (token input) None)
                             = JwtSuccessResult d' ->
                             decoded_exp d' = Some (now s / 1000) ->
                             x = now s / 1000).
  { intros d' Hd' Hx'. rewrite Hd in Hd'. injection Hd' as <-.
    rewrite Hx in Hx'. injection Hx' as ->. reflexivity. }
  destruct (Z.ltb_spec x (now s / 1000)) as [Hlt|Hge].
  - split; [lia|]. split; [intros _; lia|]. split; [intros; lia|]. split.
    + intros [Hf _]. discriminate.
    + intros [d' [Hd' Hx']]. specialize (Hsame d' Hd' Hx'). lia.
  - split; [lia|]. split; [discriminate|]. split; [reflexivity|]. split.
    + intros [_ Hz]. exists d. split; [assumption|]. rewrite Hx. f_equal. lia.
    + intros [d' [Hd' Hx']]. specialize (Hsame d' Hd' Hx').
      split; [reflexivity|lia].
Qed.

Lemma expiry_helpers_agree_witness :
  let input := mkJwtExpirationInput (JsString "lasting") in
  let s := mkState 2000999 0 [] in
  0 <= 0
  /\ (false = true -> 0 = 0)
  /\ (0 < 0 -> false = false)
  /\ (false = false /\ 0 = 0 <->
      exists d, jwtDecode sample_decode (mkJwtDecodeInput (token input) None)
                = JwtSuccessResult d
                /\ decoded_exp d = Some (now s / 1000)).
Proof.
  apply (expiry_helpers_agree sample_decode
           (mkJwtExpirationInput (JsString "lasting")) (mkState 2000999 0 [])
           (mkState 2000999 0 []) (mkState 2000999 0 []) false 0);
    reflexivity.
Defined.

(** X17: [jwtIsExpired] answers exactly for tokens that decode to an
    object payload with a non-zero [exp]: the answer is whether [exp] lies
    before the current second.  A token whose [exp] is 0 is treated like
    a token without [exp]: it gets the error, not "expired". *)
Theorem jwtIsExpired_success_iff :
  forall decode (input : JwtExpirationInput) (s s' : State) (expired : bool),
    jwtIsExpired decode input s = (Returns (JwtSuccessResult expired), s')
    <-> (s' = s
         /\ exists p x,
              jwtDecode decode (mkJwtDecodeInput (token input) None)
              = JwtSuccessResult (DecodedPayload p)
              /\ exp p = Some x /\ x <> 0
              /\ expired = (x <? now s / 1000)).
Proof.
  intros decode input s s' expired.
  destruct (expiry_cases decode input s)
    as [[e0 [Hd [E1 _]]]|[[d [Hd [Hz [E1 _]]]]|[d [x [Hd [Hx [Hne [E1 _]]]]]]]];
    rewrite E1, Hd.
  - split; [discriminate|]. intros [_ [p [x [H _]]]]. discriminate.
  - split; [discriminate|]. intros [_ [p [x [H [Hx [Hne _]]]]]].
    injection H as ->. simpl in Hz. destruct Hz; congruence.
  - split.
    + intros H. injection H as <- <-. split; [reflexivity|].
      destruct d as [|str|p|h p sig]; simpl in Hx; try discriminate.
      exists p, x. auto.
    + intros [-> [p [x' [H [Hx' [_ ->]]]]]]. injection H as ->.
      simpl in Hx. rewrite Hx' in Hx. injection Hx as ->. reflexivity.
Qed.

Example jwtIsExpired_rejects_exp_zero :
  jwtIsExpired sample_decode (mkJwtExpirationInput (JsString "epoch"))
               (mkState 1700000000000 0 [])
  = (Returns (JwtErrorResult no_expiration), mkState 1700000000000 0 []).
Proof. reflexivity. Qed.

(** X18: for a token that decodes to a payload with a non-zero [exp],
    [jwtTimeUntilExpiry] returns [exp] minus the current second, and 0
    once that is not positive; the clock is only read.  ([exp] and the
    clock are taken in the range where JavaScript numbers subtract
    exactly.) *)
Theorem jwtTimeUntilExpiry_value :
  forall decode (input : JwtExpirationInput) (s : State) (p : JwtPayload) (x : Z),
    jwtDecode decode (mkJwtDecodeInput (token input) None)
    = JwtSuccessResult (DecodedPayload p) ->
    exp p = Some x -> x <> 0 ->
    Z.abs x <= 2 ^ 52 -> Z.abs (now s) <= 8640000000000000 ->
    jwtTimeUntilExpiry decode input s
    = (Returns (JwtSuccessResult (Z.max 0 (x - now s / 1000))), s).
Proof.
  intros decode input s p x Hd Hx Hne _ _.
  destruct (expiry_cases decode input s)
    as [[e0 [Hd' _]]|[[d [Hd' [Hz _]]]|[d [x' [Hd' [Hx' [_ [_ E2]]]]]]]];
    rewrite Hd in Hd'; try discriminate; injection Hd' as <-; simpl in *.
  - destruct Hz; congruence.
  - rewrite Hx in Hx'. injection Hx' as <-. exact E2.
Qed.

Lemma jwtTimeUntilExpiry_value_witness :
  jwtTimeUntilExpiry sample_decode (mkJwtExpirationInput (JsString "lasting"))
                     (mkState 1500999 0 [])
  = (Returns (JwtSuccessResult (Z.max 0 (2000 - 1500999 / 1000))),
     mkState 1500999 0 []).
Proof.
  apply (jwtTimeUntilExpiry_value sample_decode
           (mkJwtExpirationInput (JsString "lasting")) (mkState 1500999 0 [])
           (mkJwtPayload (Some 2000) []) 2000);
    try reflexivity; try discriminate; simpl; lia.
Defined.

(** * The time utilities *)

(** X20: on whole units of magnitude at most 10^8 each, [convertToSeconds]
    is additive: converting two sets of units and adding the results is
    converting the units added one by one, a missing unit counting as 0.
    (In this range JavaScript numbers compute every product and sum
    exactly; on fractional units the source rounds and additivity can
    fail in the last digit.) *)
Theorem convertToSeconds_additive :
  forall a b : TimeUnits,
    small_units a -> small_units b ->
    convertToSeconds (add_units a b) = convertToSeconds a + convertToSeconds b.
Proof.
  intros a b _ _.
  unfold convertToSeconds, add_units, SECONDS_PER_MINUTE, SECONDS_PER_HOUR,
    SECONDS_PER_DAY, SECONDS_PER_MONTH, SECONDS_PER_YEAR.
  cbn [seconds minutes hours days months years].
  cbn [default]. lia.
Qed.

Lemma convertToSeconds_additive_witness :
  convertToSeconds
    (add_units (mkTimeUnits None (Some 30) (Some 1) None None None)
               (mkTimeUnits (Some 15) (Some 45) None None None None))
  = convertToSeconds (mkTimeUnits None (Some 30) (Some 1) None None None)
    + convertToSeconds (mkTimeUnits (Some 15) (Some 45) None None None None).
Proof.
  apply convertToSeconds_additive;
    unfold small_units, small; simpl; lia.
Defined.

(** * The string utilities *)

Lemma string_length_append (a b : string) :
  String.length (a ++ b)%string = (String.length a + String.length b)%nat.
Proof. induction a as [|c a IH]; simpl; [|rewrite IH]; reflexivity. Qed.

Lemma third_character_length (rendering : string) :
  String.length (third_character rendering)
  = if (3 <=? String.length rendering)%nat then 1%nat else 0%nat.
Proof.
  unfold third_character.
  destruct rendering as [|a [|b [|c r]]]; reflexivity.
Qed.

Lemma joined_length (f : nat -> string) (l : list nat) :
  String.length (String.concat "" (map f l))
  = list_sum (map (fun i => String.length (f i)) l).
Proof.
  induction l as [|i l IH]; [reflexivity|].
  destruct l as [|j l].
  - simpl. lia.
  - change (String.concat "" (map f (i :: j :: l)))
      with (f i ++ "" ++ String.concat "" (map f (j :: l)))%string.
    rewrite !string_length_append, IH. simpl. lia.
Qed.

Lemma random_characters_length (random : nat -> string) (l : list nat) :
  (list_sum (map (fun i => String.length (third_character (random i))) l)
   <= List.length l)%nat
  /\ ((forall i, In i l -> (3 <= String.length (random i))%nat) ->
      list_sum (map (fun i => String.length (third_character (random i))) l)
      = List.length l)
  /\ ((exists i, In i l /\ (String.length (random i) < 3)%nat) ->
      (list_sum (map (fun i => String.length (third_character (random i))) l)
       < List.length l)%nat).
Proof.
  unfold list_sum. induction l as [|i l [IH1 [IH2 IH3]]].
  - simpl. split; [lia|]. split; [reflexivity|]. intros [i [[] _]].
  - cbn [map fold_right List.length]. rewrite third_character_length.
    destruct (Nat.leb_spec 3 (String.length (random i))) as [Hlong|Hshort].
    + split; [lia|]. split.
      * intros Hall. rewrite IH2; [lia|]. intros j Hj. apply Hall. right. exact Hj.
      * intros [j [[->|Hj] Hs]]; [lia|].
        specialize (IH3 (ex_intro _ j (conj Hj Hs))). lia.
    + split; [lia|]. split.
      * intros Hall. specialize (Hall i (or_introl eq_refl)). lia.
      * intros _. lia.
Qed.

(** X21: for a length between 1 and 2^32 - 1, [randomStringWithFixedLength]
    returns a string of at most that many characters; it has exactly that
    many when every rendering of a random number has a third character,
    and fewer as soon as one rendering is shorter than three characters
    (the number 0 renders as ["0"]). *)
Theorem randomStringWithFixedLength_length :
  forall (random : nat -> string) (length : Z) (s : State),
    1 <= length <= 4294967295 ->
    exists str,
      randomStringWithFixedLength random length s = (Returns str, s)
      /\ (String.length str <= Z.to_nat length)%nat
      /\ ((forall i, (i < Z.to_nat length)%nat ->
             (3 <= String.length (random i))%nat) ->
          String.length str = Z.to_nat length)
      /\ ((exists i, (i < Z.to_nat length)%nat
                     /\ (String.length (random i) < 3)%nat) ->
          (String.length str < Z.to_nat length)%nat).
Proof.
  intros random length s Hlen.
  exists (random_characters random (Z.to_nat length)). split.
  - unfold randomStringWithFixedLength, Number_isInteger. simpl.
    destruct (Z.leb_spec length 0); [lia|].
    destruct (Z.gtb_spec length 4294967295); [lia|]. reflexivity.
  - unfold random_characters. rewrite joined_length.
    destruct (random_characters_length random (seq 0 (Z.to_nat length)))
      as [H1 [H2 H3]].
    rewrite length_seq in H1, H2, H3.
    split; [exact H1|]. split.
    + intros Hall. apply H2. intros i Hi. apply in_seq in Hi. apply Hall. lia.
    + intros [i [Hi Hs]]. apply H3. exists i. split; [|exact Hs].
      apply in_seq. lia.
Qed.

Lemma randomStringWithFixedLength_length_witness :
  exists str,
    randomStringWithFixedLength sample_random 3 fresh = (Returns str, fresh)
    /\ (String.length str <= Z.to_nat 3)%nat
    /\ ((forall i, (i < Z.to_nat 3)%nat ->
           (3 <= String.length (sample_random i))%nat) ->
        String.length str = Z.to_nat 3)
    /\ ((exists i, (i < Z.to_nat 3)%nat
                   /\ (String.length (sample_random i) < 3)%nat) ->
        (String.length str < Z.to_nat 3)%nat).
Proof.
  apply (randomStringWithFixedLength_length sample_random 3 fresh). lia.
Defined.

(** The run behind the witness: the second draw contributes nothing. *)
Example randomStringWithFixedLength_can_be_short :
  randomStringWithFixedLength sample_random 3 fresh = (Returns "kk", fresh).
Proof. reflexivity. Qed.
